(** * AI Roast Meter: sound service, camera form and backend call

    A shallow embedding of [src/services/soundService.ts],
    [src/components/RoastForm.tsx], [src/constants.ts], [src/App.tsx] and
    [src/components/RoastResult.tsx], with the properties the design
    specification states about them and further properties of the code.

    JavaScript numbers are taken as exact rationals ([Q]); module-level
    variables and React state become fields of a record that every function
    threads explicitly; the browser (timers, audio clock, media tracks,
    [Math.random]) is part of that record or an explicit oracle. *)

From Stdlib Require Import ZArith QArith Qround Lqa Lia List Bool String Ascii.
From stdpp Require Import base gmap.
Import ListNotations.

Local Open Scope Q_scope.

(** Strict comparison of two JavaScript numbers, [x < y]. *)
Definition Qltb (x y : Q) : bool := negb (Qle_bool y x).

(** ** The look-ahead music scheduler ([soundService.ts], lines 1-33, 210-283)

    The calls that build the sound of a note are taken to succeed: a slot
    is recorded by its time and by what was synthesized for it. *)

Module Scheduler.

Definition TEMPO : Q := 110.
Definition LOOKAHEAD : Q := 25.
Definition SCHEDULE_AHEAD_TIME : Q := 1 # 10.

(** C major pentatonic scale, C4 to A5. *)
Definition SCALE : list Q :=
  [ 26163 # 100; 29366 # 100; 32963 # 100; 39200 # 100; 44000 # 100;
    52325 # 100; 58733 # 100; 65926 # 100; 78399 # 100; 88000 # 100 ].

(** What one call of [scheduleNote] synthesized. *)
Inductive Sound :=
  | NoContext                       (* [getCtx()] gave null: early return *)
  | Rest                            (* the 20% branch: early return *)
  | Pluck (frequency : option Q).   (* oscillator started; [None] is [undefined] *)

Record Slot := { slot_time : Q; slot_sound : Sound }.

(** Module-level variables of the service together with the part of the
    browser they talk to.  Handles returned by [window.setTimeout] are
    positive integers, so a stored handle is always truthy. *)
Record World := {
  audioCtx : bool;               (* [audioCtx] is non-null *)
  musicEnabled : bool;
  nextNoteTime : Q;
  timerID : option positive;
  (* browser *)
  audioClass : bool;             (* [window.AudioContext || webkitAudioContext] exists *)
  currentTime : Q;               (* [ctx.currentTime] *)
  timers : list positive;        (* timeouts set and neither run nor cleared *)
  nextHandle : positive;         (* the handle the next [setTimeout] returns *)
  resumes : nat;                 (* calls of [ctx.resume()] *)
  suspended : bool;              (* [ctx.state === 'suspended'] *)
  draws : nat;                   (* calls of [Math.random()] so far *)
  emitted : list Slot            (* calls of [scheduleNote], newest first *)
}.

Definition initial (hasAudio : bool) : World :=
  {| audioCtx := false; musicEnabled := false; nextNoteTime := 0;
     timerID := None; audioClass := hasAudio; currentTime := 0;
     timers := []; nextHandle := 1%positive; resumes := 0; suspended := true;
     draws := 0; emitted := [] |}.

Definition set_audioCtx (v : bool) (w : World) : World :=
  {| audioCtx := v; musicEnabled := musicEnabled w;
     nextNoteTime := nextNoteTime w; timerID := timerID w;
     audioClass := audioClass w; currentTime := currentTime w;
     timers := timers w; nextHandle := nextHandle w; resumes := resumes w;
     suspended := suspended w; draws := draws w; emitted := emitted w |}.

Definition set_musicEnabled (v : bool) (w : World) : World :=
  {| audioCtx := audioCtx w; musicEnabled := v;
     nextNoteTime := nextNoteTime w; timerID := timerID w;
     audioClass := audioClass w; currentTime := currentTime w;
     timers := timers w; nextHandle := nextHandle w; resumes := resumes w;
     suspended := suspended w; draws := draws w; emitted := emitted w |}.

Definition set_nextNoteTime (v : Q) (w : World) : World :=
  {| audioCtx := audioCtx w; musicEnabled := musicEnabled w;
     nextNoteTime := v; timerID := timerID w;
     audioClass := audioClass w; currentTime := currentTime w;
     timers := timers w; nextHandle := nextHandle w; resumes := resumes w;
     suspended := suspended w; draws := draws w; emitted := emitted w |}.

Definition set_timerID (v : option positive) (w : World) : World :=
  {| audioCtx := audioCtx w; musicEnabled := musicEnabled w;
     nextNoteTime := nextNoteTime w; timerID := v;
     audioClass := audioClass w; currentTime := currentTime w;
     timers := timers w; nextHandle := nextHandle w; resumes := resumes w;
     suspended := suspended w; draws := draws w; emitted := emitted w |}.

Definition set_currentTime (v : Q) (w : World) : World :=
  {| audioCtx := audioCtx w; musicEnabled := musicEnabled w;
     nextNoteTime := nextNoteTime w; timerID := timerID w;
     audioClass := audioClass w; currentTime := v;
     timers := timers w; nextHandle := nextHandle w; resumes := resumes w;
     suspended := suspended w; draws := draws w; emitted := emitted w |}.

Definition set_timers (v : list positive) (w : World) : World :=
  {| audioCtx := audioCtx w; musicEnabled := musicEnabled w;
     nextNoteTime := nextNoteTime w; timerID := timerID w;
     audioClass := audioClass w; currentTime := currentTime w;
     timers := v; nextHandle := nextHandle w; resumes := resumes w;
     suspended := suspended w; draws := draws w; emitted := emitted w |}.

Definition set_nextHandle (v : positive) (w : World) : World :=
  {| audioCtx := audioCtx w; musicEnabled := musicEnabled w;
     nextNoteTime := nextNoteTime w; timerID := timerID w;
     audioClass := audioClass w; currentTime := currentTime w;
     timers := timers w; nextHandle := v; resumes := resumes w;
     suspended := suspended w; draws := draws w; emitted := emitted w |}.

Definition set_resumes (v : nat) (w : World) : World :=
  {| audioCtx := audioCtx w; musicEnabled := musicEnabled w;
     nextNoteTime := nextNoteTime w; timerID := timerID w;
     audioClass := audioClass w; currentTime := currentTime w;
     timers := timers w; nextHandle := nextHandle w; resumes := v;
     suspended := suspended w; draws := draws w; emitted := emitted w |}.

Definition set_draws (v : nat) (w : World) : World :=
  {| audioCtx := audioCtx w; musicEnabled := musicEnabled w;
     nextNoteTime := nextNoteTime w; timerID := timerID w;
     audioClass := audioClass w; currentTime := currentTime w;
     timers := timers w; nextHandle := nextHandle w; resumes := resumes w;
     suspended := suspended w; draws := v; emitted := emitted w |}.

Definition set_emitted (v : list Slot) (w : World) : World :=
  {| audioCtx := audioCtx w; musicEnabled := musicEnabled w;
     nextNoteTime := nextNoteTime w; timerID := timerID w;
     audioClass := audioClass w; currentTime := currentTime w;
     timers := timers w; nextHandle := nextHandle w; resumes := resumes w;
     suspended := suspended w; draws := draws w; emitted := v |}.

(** [window.setTimeout(scheduler, LOOKAHEAD)]: a fresh handle, now pending. *)
Definition setTimeout (w : World) : positive * World :=
  let h := nextHandle w in
  (h, set_nextHandle (Pos.succ h) (set_timers (timers w ++ [h]) w)).

(** [clearTimeout(h)]: the timeout will not run any more. *)
Definition clearTimeout (h : positive) (w : World) : World :=
  set_timers (List.filter (fun k => negb (Pos.eqb k h)) (timers w)) w.

(** [SCALE[i]] for a JavaScript index. *)
Definition index (l : list Q) (i : Z) : option Q :=
  if (i <? 0)%Z then None else nth_error l (Z.to_nat i).

(** [Math.random() < 0.2]: the slot is a rest. *)
Definition restDraw (r : Q) : bool := Qltb r (2 # 10).

(** [Math.floor(Math.random() * SCALE.length)]. *)
Definition noteIndex (r : Q) : Z :=
  Qfloor (r * inject_Z (Z.of_nat (length SCALE))).

(** [n] equally likely results of [Math.random()]: 0/n, 1/n, ..., (n-1)/n. *)
Definition grid (n : positive) : list Q :=
  map (fun i => Z.of_nat i # n) (seq 0 (Pos.to_nat n)).

(** How many of the draws [l] satisfy [p]. *)
Definition count (p : Q -> bool) (l : list Q) : nat :=
  length (List.filter p l).

Section WithRandom.

(** The successive results of [Math.random()]. *)
Variable random : nat -> Q.

Definition Math_random (w : World) : Q * World :=
  (random (draws w), set_draws (S (draws w)) w).

Definition getCtx (w : World) : bool * World :=
  if audioCtx w then (true, w)
  else if audioClass w then (true, set_audioCtx true w)
  else (false, w).

Definition resumeCtx (w : World) : bool * World :=
  let (ctx, w) := getCtx w in
  if ctx && suspended w then (ctx, set_resumes (S (resumes w)) w)
  else (ctx, w).

Definition log (time : Q) (s : Sound) (w : World) : World :=
  set_emitted ({| slot_time := time; slot_sound := s |} :: emitted w) w.

Definition scheduleNote (time : Q) (w : World) : World :=
  let (ctx, w) := getCtx w in
  if negb ctx then log time NoContext w
  else
    let (r, w) := Math_random w in
    if restDraw r then log time Rest w
    else
      let (r', w) := Math_random w in
      let frequency := index SCALE (noteIndex r') in
      log time (Pluck frequency) w.

(** One turn of the [while] loop of [scheduler]. *)
Definition advance (w : World) : World :=
  let w := scheduleNote (nextNoteTime w) w in
  let (r, w) := Math_random w in
  let swing := r * (5 # 100) - (25 # 1000) in
  set_nextNoteTime (nextNoteTime w + (60 / TEMPO + swing)) w.

(** The [while] loop; [None] when [fuel] turns were not enough. *)
Fixpoint drain (fuel : nat) (w : World) : option World :=
  if Qltb (nextNoteTime w) (currentTime w + SCHEDULE_AHEAD_TIME) then
    match fuel with
    | O => None
    | S fuel => drain fuel (advance w)
    end
  else Some w.

Definition scheduler (fuel : nat) (w : World) : option World :=
  let (ctx, w) := getCtx w in
  if negb ctx || negb (musicEnabled w) then Some w
  else
    match drain fuel w with
    | None => None
    | Some w =>
        let (h, w) := setTimeout w in
        Some (set_timerID (Some h) w)
    end.

Definition toggleBackgroundMusic (fuel : nat) (enable : bool) (w : World)
  : option World :=
  let (ctx, w) := resumeCtx w in
  let w := set_musicEnabled enable w in
  if musicEnabled w then
    if ctx then
      scheduler fuel (set_nextNoteTime (currentTime w + (1 # 10)) w)
    else Some w
  else
    match timerID w with
    | Some h => Some (set_timerID None (clearTimeout h w))
    | None => Some w
    end.

(** What happens to the service, one event-loop task at a time. *)
Inductive Event :=
  | Toggle (enable : bool)   (* the app calls [toggleBackgroundMusic] *)
  | Fire (h : positive)      (* the browser runs timeout [h] *)
  | Elapse (dt : Q).         (* the audio clock moves on *)

Definition step (fuel : nat) (ev : Event) (w : World) : option World :=
  match ev with
  | Toggle enable => toggleBackgroundMusic fuel enable w
  | Fire h =>
      if existsb (Pos.eqb h) (timers w)
      then scheduler fuel (clearTimeout h w)
      else Some w
  | Elapse dt =>
      if Qle_bool 0 dt then Some (set_currentTime (currentTime w + dt) w)
      else Some w
  end.

Fixpoint exec (fuel : nat) (evs : list Event) (w : World) : option World :=
  match evs with
  | [] => Some w
  | ev :: evs =>
      match step fuel ev w with
      | None => None
      | Some w => exec fuel evs w
      end
  end.

End WithRandom.

(** *** Runs and their shape *)

(** No [enable(true)] arrives while the last toggle left the music enabled. *)
Fixpoint calm (enabled : bool) (evs : list Event) : bool :=
  match evs with
  | [] => true
  | Toggle true :: evs => negb enabled && calm true evs
  | Toggle false :: evs => calm false evs
  | _ :: evs => calm enabled evs
  end.

(** No [enable(true)] at all: the events of one run after it was started. *)
Fixpoint unstarted (evs : list Event) : bool :=
  match evs with
  | [] => true
  | Toggle true :: _ => false
  | _ :: evs => unstarted evs
  end.

Definition baseInterval : Q := 60 / TEMPO.
Definition maxSwing : Q := 25 # 1000.

(** Scheduled times in the order they were scheduled. *)
Definition schedule (slots : list Slot) : list Q := rev (map slot_time slots).

(** Neighbours are a base interval apart, give or take the swing. *)
Definition well_spaced (ts : list Q) : Prop :=
  forall (i : nat) (t t' : Q),
    nth_error ts i = Some t -> nth_error ts (S i) = Some t' ->
    t < t' /\ baseInterval - maxSwing <= t' - t <= baseInterval + maxSwing.

Definition increasing (ts : list Q) : Prop :=
  forall (i j : nat) (t t' : Q),
    (i < j)%nat -> nth_error ts i = Some t -> nth_error ts j = Some t' -> t < t'.

(** The newest-first log [new] starts at time [a] and leaves the pointer at [b]. *)
Fixpoint chain (a : Q) (new : list Slot) (b : Q) : Prop :=
  match new with
  | [] => a = b
  | s :: older =>
      (baseInterval - maxSwing <= b - slot_time s < baseInterval + maxSwing)
      /\ chain a older (slot_time s)
  end.

(** An audio context exists or can be made. *)
Definition available (w : World) : bool := audioCtx w || audioClass w.

(** With one chain: the stored handle is the one pending timeout. *)
Definition tidy (w : World) : Prop :=
  if musicEnabled w
  then exists h, timerID w = Some h /\ timers w = [h]
  else timerID w = None /\ timers w = [].

(** Without audio nothing is ever armed. *)
Definition silent (w : World) : Prop :=
  timerID w = None /\ timers w = [].

Definition steady (w : World) : Prop :=
  if available w then tidy w else silent w.

(** The fields the [while] loop does not touch. *)
Definition same_control (w w' : World) : Prop :=
  musicEnabled w' = musicEnabled w /\ timerID w' = timerID w /\
  timers w' = timers w /\ nextHandle w' = nextHandle w /\
  currentTime w' = currentTime w /\ audioClass w' = audioClass w /\
  available w' = available w /\ (audioCtx w = true -> audioCtx w' = true).

Definition gap (t t' : Q) : Prop :=
  t < t' /\ baseInterval - maxSwing <= t' - t <= baseInterval + maxSwing.

(** The log grew by [new] over [base], in steps of one swung interval from [a]. *)
Definition run_from (base : list Slot) (a : Q) (w : World) : Prop :=
  exists new, emitted w = new ++ base /\ chain a new (nextNoteTime w).

(** From some amount of fuel on, [f] gives one and the same result. *)
Definition settles {A : Type} (f : nat -> option A) : Prop :=
  exists n a, forall m, (n <= m)%nat -> f m = Some a.

(** A source of draws that always answers one half. *)
Definition half : nat -> Q := fun _ => 1 # 2.

End Scheduler.

(** ** The tone synthesizer ([soundService.ts], lines 16-208)

    Here every call into the Web Audio API may throw, as an oracle decides;
    the six effects wrap their whole body in [try { ... } catch (e) { }]. *)

Module Synth.

Inductive Wave := sine | triangle.
Inductive Param := frequency | gain.

(** The nodes of one effect's graph; [success] builds four oscillators. *)
Inductive Node :=
  | Osc (i : nat) | Gain (i : nat) | Filter | Noise | Destination.

(** Calls into the audio subsystem (property writes included). *)
Inductive Call :=
  | NewAudioContext
  | Resume
  | CreateOscillator
  | CreateGain
  | CreateBiquadFilter
  | CreateBufferSource
  | CreateBuffer (channels : Z) (size rate : Q)
  | GetChannelData (channel : Z)
  | SetBuffer
  | Connect (from to : Node)
  | SetType (n : Node) (t : Wave)
  | SetLowpass
  | SetValue (n : Node) (p : Param) (v : Q)
  | SetValueAtTime (n : Node) (p : Param) (v t : Q)
  | ExponentialRampToValueAtTime (n : Node) (p : Param) (v t : Q)
  | LinearRampToValueAtTime (n : Node) (p : Param) (v t : Q)
  | Start (n : Node) (t : option Q)
  | Stop (n : Node) (t : Q).

Record Audio := {
  audioCtx : bool;          (* the module-level [audioCtx] is non-null *)
  audioClass : bool;        (* the platform has an [AudioContext] class *)
  suspended : bool;         (* [ctx.state === 'suspended'] *)
  currentTime : Q;          (* [ctx.currentTime] *)
  sampleRate : Q;           (* [ctx.sampleRate] *)
  calls : list Call;        (* calls that went through, newest first *)
  attempts : nat;           (* calls made, thrown ones included *)
  samples : nat             (* noise samples written with [Math.random()] *)
}.

Definition with_ctx (a : Audio) : Audio :=
  {| audioCtx := true; audioClass := audioClass a; suspended := suspended a;
     currentTime := currentTime a; sampleRate := sampleRate a;
     calls := calls a; attempts := attempts a; samples := samples a |}.

Definition with_call (c : Call) (a : Audio) : Audio :=
  {| audioCtx := audioCtx a; audioClass := audioClass a;
     suspended := suspended a; currentTime := currentTime a;
     sampleRate := sampleRate a; calls := c :: calls a;
     attempts := S (attempts a); samples := samples a |}.

Definition with_attempt (a : Audio) : Audio :=
  {| audioCtx := audioCtx a; audioClass := audioClass a;
     suspended := suspended a; currentTime := currentTime a;
     sampleRate := sampleRate a; calls := calls a;
     attempts := S (attempts a); samples := samples a |}.

Definition with_samples (n : nat) (a : Audio) : Audio :=
  {| audioCtx := audioCtx a; audioClass := audioClass a;
     suspended := suspended a; currentTime := currentTime a;
     sampleRate := sampleRate a; calls := calls a;
     attempts := attempts a; samples := (samples a + n)%nat |}.

(** A computation returns normally or throws. *)
Inductive Outcome (A : Type) :=
  | Return (x : A)
  | Throw.

Arguments Return {A} x.
Arguments Throw {A}.

Definition M (A : Type) : Type := Audio -> Outcome A * Audio.

Definition ret {A : Type} (x : A) : M A := fun a => (Return x, a).

Definition bind {A B : Type} (m : M A) (k : A -> M B) : M B :=
  fun a =>
    match m a with
    | (Return x, a') => k x a'
    | (Throw, a') => (Throw, a')
    end.

Notation "x <- m ;; k" := (bind m (fun x => k))
  (at level 100, m at next level, right associativity).
Notation "m ;;; k" := (bind m (fun _ => k))
  (at level 100, right associativity).

(** [try { m } catch (e) { /* ignore */ }]. *)
Definition try_ignore (m : M unit) : M unit :=
  fun a =>
    match m a with
    | (Return _, a') => (Return tt, a')
    | (Throw, a') => (Return tt, a')
    end.

Definition get {A : Type} (f : Audio -> A) : M A := fun a => (Return (f a), a).

Section WithSubsystem.

(** The behaviour of the audio subsystem: whether the [n]-th call, being
    [c], throws. *)
Variable faulty : nat -> Call -> bool.

Definition call (c : Call) : M unit :=
  fun a =>
    if faulty (attempts a) c then (Throw, with_attempt a)
    else (Return tt, with_call c a).

Definition getCtx : M bool :=
  fun a =>
    if audioCtx a then (Return true, a)
    else if audioClass a then
      match call NewAudioContext a with
      | (Return _, a') => (Return true, with_ctx a')
      | (Throw, a') => (Throw, a')
      end
    else (Return false, a).

(** [ctx.resume().catch(console.error)]: a rejection is handled there. *)
Definition resumeCtx : M bool :=
  ctx <- getCtx ;;
  s <- get suspended ;;
  (if ctx && s then call Resume else ret tt) ;;;
  ret ctx.

(** A call whose time argument is [ctx.currentTime + offset]. *)
Definition at_ (offset : Q) (c : Q -> Call) : M unit :=
  now <- get currentTime ;; call (c (now + offset)).

Definition playClick : M unit :=
  try_ignore (
    ctx <- resumeCtx ;;
    if negb ctx then ret tt else
    call CreateOscillator ;;;
    call CreateGain ;;;
    call (Connect (Osc 0) (Gain 0)) ;;;
    call (Connect (Gain 0) Destination) ;;;
    call (SetType (Osc 0) sine) ;;;
    at_ 0 (SetValueAtTime (Osc 0) frequency 600) ;;;
    at_ (5 # 100) (ExponentialRampToValueAtTime (Osc 0) frequency 300) ;;;
    at_ 0 (SetValueAtTime (Gain 0) gain (5 # 100)) ;;;
    at_ (5 # 100) (ExponentialRampToValueAtTime (Gain 0) gain (1 # 1000)) ;;;
    call (Start (Osc 0) None) ;;;
    at_ (5 # 100) (Stop (Osc 0))).

Definition playHover : M unit :=
  try_ignore (
    ctx <- resumeCtx ;;
    if negb ctx then ret tt else
    call CreateOscillator ;;;
    call CreateGain ;;;
    call (Connect (Osc 0) (Gain 0)) ;;;
    call (Connect (Gain 0) Destination) ;;;
    call (SetType (Osc 0) triangle) ;;;
    at_ 0 (SetValueAtTime (Osc 0) frequency 800) ;;;
    at_ 0 (SetValueAtTime (Gain 0) gain (2 # 100)) ;;;
    at_ (2 # 100) (ExponentialRampToValueAtTime (Gain 0) gain (1 # 1000)) ;;;
    call (Start (Osc 0) None) ;;;
    at_ (2 # 100) (Stop (Osc 0))).

(** The [for] loop that fills the noise buffer: one [Math.random()] per
    sample, [i = 0, 1, ...] while [i < bufferSize]. *)
Definition fillNoise (bufferSize : Q) : M unit :=
  fun a => (Return tt, with_samples (Z.to_nat (Qceiling bufferSize)) a).

Definition playCapture : M unit :=
  try_ignore (
    ctx <- resumeCtx ;;
    if negb ctx then ret tt else
    rate <- get sampleRate ;;
    let bufferSize := rate * (15 # 100) in
    call (CreateBuffer 1 bufferSize rate) ;;;
    call (GetChannelData 0) ;;;
    fillNoise bufferSize ;;;
    call CreateBufferSource ;;;
    call SetBuffer ;;;
    call CreateGain ;;;
    call CreateBiquadFilter ;;;
    call SetLowpass ;;;
    call (SetValue Filter frequency 1000) ;;;
    call (Connect Noise Filter) ;;;
    call (Connect Filter (Gain 0)) ;;;
    call (Connect (Gain 0) Destination) ;;;
    at_ 0 (SetValueAtTime (Gain 0) gain (3 # 10)) ;;;
    at_ (15 # 100) (ExponentialRampToValueAtTime (Gain 0) gain (1 # 1000)) ;;;
    call (Start Noise None)).

Definition playCameraStart : M unit :=
  try_ignore (
    ctx <- resumeCtx ;;
    if negb ctx then ret tt else
    call CreateOscillator ;;;
    call CreateGain ;;;
    call (Connect (Osc 0) (Gain 0)) ;;;
    call (Connect (Gain 0) Destination) ;;;
    call (SetType (Osc 0) sine) ;;;
    at_ 0 (SetValueAtTime (Osc 0) frequency 300) ;;;
    at_ (2 # 10) (ExponentialRampToValueAtTime (Osc 0) frequency 600) ;;;
    at_ 0 (SetValueAtTime (Gain 0) gain (5 # 100)) ;;;
    at_ (2 # 10) (LinearRampToValueAtTime (Gain 0) gain (1 # 1000)) ;;;
    call (Start (Osc 0) None) ;;;
    at_ (2 # 10) (Stop (Osc 0))).

Definition playCameraStop : M unit :=
  try_ignore (
    ctx <- resumeCtx ;;
    if negb ctx then ret tt else
    call CreateOscillator ;;;
    call CreateGain ;;;
    call (Connect (Osc 0) (Gain 0)) ;;;
    call (Connect (Gain 0) Destination) ;;;
    call (SetType (Osc 0) sine) ;;;
    at_ 0 (SetValueAtTime (Osc 0) frequency 500) ;;;
    at_ (15 # 100) (ExponentialRampToValueAtTime (Osc 0) frequency 200) ;;;
    at_ 0 (SetValueAtTime (Gain 0) gain (5 # 100)) ;;;
    at_ (15 # 100) (LinearRampToValueAtTime (Gain 0) gain (1 # 1000)) ;;;
    call (Start (Osc 0) None) ;;;
    at_ (15 # 100) (Stop (Osc 0))).

(** [notes.forEach((freq, i) => ...)], with [now] read once before it. *)
Fixpoint forEach (now : Q) (i : nat) (notes : list Q) : M unit :=
  match notes with
  | [] => ret tt
  | freq :: notes =>
      call CreateOscillator ;;;
      call CreateGain ;;;
      call (Connect (Osc i) (Gain i)) ;;;
      call (Connect (Gain i) Destination) ;;;
      call (SetType (Osc i) sine) ;;;
      call (SetValue (Osc i) frequency freq) ;;;
      let startTime := now + inject_Z (Z.of_nat i) * (8 # 100) in
      let duration := 4 # 10 in
      call (SetValueAtTime (Gain i) gain 0 startTime) ;;;
      call (LinearRampToValueAtTime (Gain i) gain (5 # 100)
              (startTime + (5 # 100))) ;;;
      call (ExponentialRampToValueAtTime (Gain i) gain (1 # 1000)
              (startTime + duration)) ;;;
      call (Start (Osc i) (Some startTime)) ;;;
      call (Stop (Osc i) (startTime + duration)) ;;;
      forEach now (S i) notes
  end.

Definition playSuccess : M unit :=
  try_ignore (
    ctx <- resumeCtx ;;
    if negb ctx then ret tt else
    now <- get currentTime ;;
    let notes := [52325 # 100; 65925 # 100; 78399 # 100; 104650 # 100] in
    forEach now 0 notes).

(** The effect kinds of the design and the function each one names. *)
Inductive Effect := click | hover | shutter | cameraStart | cameraStop | success.

Definition playEffect (kind : Effect) : M unit :=
  match kind with
  | click => playClick
  | hover => playHover
  | shutter => playCapture
  | cameraStart => playCameraStart
  | cameraStop => playCameraStop
  | success => playSuccess
  end.

(** The body of [playClick] without its [try]: what the handler guards. *)
Definition clickBody : M unit :=
  ctx <- resumeCtx ;;
  if negb ctx then ret tt else
  call CreateOscillator ;;;
  call CreateGain.

End WithSubsystem.

Definition page (hasAudio : bool) : Audio :=
  {| audioCtx := false; audioClass := hasAudio; suspended := true;
     currentTime := 0; sampleRate := 48000; calls := []; attempts := 0;
     samples := 0 |}.

End Synth.

(** ** Shared types ([types.ts]) *)

Inductive RoastMode := GENTLE_ROAST | COMPLIMENT | WHOLESOME_ROAST.

Inductive RoastLanguage := English | Hindi | RomanUrdu.

(** A JavaScript string the user typed: its UTF-16 code units. *)
Definition JsString : Type := list N.

(** ECMAScript [WhiteSpace] and [LineTerminator] code units, the ones
    [String.prototype.trim] strips. *)
Definition isWhiteSpace (c : N) : bool :=
  List.existsb (N.eqb c)
    [ 9; 10; 11; 12; 13; 32; 160; 5760; 8232; 8233; 8239; 8287; 12288; 65279 ]%N
  || ((8192 <=? c)%N && (c <=? 8202)%N).

Fixpoint trimStart (s : JsString) : JsString :=
  match s with
  | c :: s' => if isWhiteSpace c then trimStart s' else s
  | [] => []
  end.

Definition trim (s : JsString) : JsString :=
  rev (trimStart (rev (trimStart s))).

(** Truthiness of a string: [!s] holds for the empty string only. *)
Definition falsy (s : JsString) : bool :=
  match s with [] => true | _ => false end.

(** [s.includes(sub)] on ASCII strings. *)
Fixpoint includes (s sub : string) : bool :=
  String.prefix sub s
  || match s with
     | EmptyString => false
     | String _ s' => includes s' sub
     end.

(** ** The camera and submit logic of the form ([RoastForm.tsx]) *)

Definition isSome {A : Type} (o : option A) : bool :=
  match o with Some _ => true | None => false end.

Module Form.

Local Open Scope string_scope.

Definition Pixel : Type := Z.

(** The frame the [<video>] element holds. *)
Record Video := {
  videoWidth : Z;
  videoHeight : Z;
  pixel : Z -> Z -> Pixel      (* column, row *)
}.

(** The current transformation matrix of a 2D context:
    [x' = a x + c y + e], [y' = b x + d y + f]. *)
Record Matrix := { ma : Q; mb : Q; mc : Q; md : Q; me : Q; mf : Q }.

Definition identity : Matrix :=
  {| ma := 1; mb := 0; mc := 0; md := 1; me := 0; mf := 0 |}.

Record Canvas := {
  width : Z;
  height : Z;
  ctm : Matrix;
  bitmap : Z -> Z -> option Pixel     (* [None] is transparent black *)
}.

Definition blank (w h : Z) : Canvas :=
  {| width := w; height := h; ctm := identity; bitmap := fun _ _ => None |}.

(** Assigning [canvas.width] or [canvas.height] clears the bitmap and
    resets the context to its default state. *)
Definition set_width (w : Z) (c : Canvas) : Canvas := blank w (height c).
Definition set_height (h : Z) (c : Canvas) : Canvas := blank (width c) h.

Definition with_ctm (m : Matrix) (c : Canvas) : Canvas :=
  {| width := width c; height := height c; ctm := m; bitmap := bitmap c |}.

(** [context.translate(tx, ty)] and [context.scale(sx, sy)] multiply the
    matrix on the right. *)
Definition translate (tx ty : Q) (c : Canvas) : Canvas :=
  let m := ctm c in
  with_ctm {| ma := ma m; mb := mb m; mc := mc m; md := md m;
              me := ma m * tx + mc m * ty + me m;
              mf := mb m * tx + md m * ty + mf m |} c.

Definition scale (sx sy : Q) (c : Canvas) : Canvas :=
  let m := ctm c in
  with_ctm {| ma := ma m * sx; mb := mb m * sx;
              mc := mc m * sy; md := md m * sy;
              me := me m; mf := mf m |} c.

(** The point of user space that the matrix sends to [(x, y)]. *)
Definition preimage (m : Matrix) (x y : Q) : Q * Q :=
  let det := ma m * md m - mb m * mc m in
  ((md m * (x - me m) - mc m * (y - mf m)) / det,
   (ma m * (y - mf m) - mb m * (x - me m)) / det).

Definition inside (lo hi v : Q) : bool := Qle_bool lo v && Qltb v hi.

(** [context.drawImage(video, dx, dy, dw, dh)]: every canvas pixel whose
    centre falls, in user space, inside the destination rectangle takes the
    colour of the frame pixel under it. *)
Definition drawImage (v : Video) (dx dy dw dh : Q) (c : Canvas) : Canvas :=
  let m := ctm c in
  {| width := width c; height := height c; ctm := m;
     bitmap := fun x y =>
       if (0 <=? x)%Z && (x <? width c)%Z && (0 <=? y)%Z && (y <? height c)%Z
       then
         let (u, t) := preimage m (inject_Z x + (1 # 2)) (inject_Z y + (1 # 2)) in
         if inside dx (dx + dw) u && inside dy (dy + dh) t then
           Some (pixel v
                   (Qfloor ((u - dx) * inject_Z (videoWidth v) / dw))
                   (Qfloor ((t - dy) * inject_Z (videoHeight v) / dh)))
         else bitmap c x y
       else None |}.

(** A blob, by the picture it encodes. *)
Record Blob := {
  blob_type : string;
  blob_width : Z;
  blob_height : Z;
  blob_pixel : Z -> Z -> option Pixel
}.

Record File := { file_name : string; file_type : string; file_blob : Blob }.

Record Track := {
  track_id : positive;
  focusable : bool     (* [getCapabilities] exists and reports a [focusMode] *)
}.

(** A media stream, as the list [getTracks()] returns; a camera stream has
    video tracks only. *)
Definition MediaStream : Type := list Track.

Record FocusPoint := { focus_x : Q; focus_y : Q; visible : bool }.

Record JsError := { name : string; message : string }.

Record Submission := {
  sub_mode : RoastMode;
  sub_language : RoastLanguage;
  sub_text : JsString;
  sub_file : option File
}.

(** React state, refs and props of the component, and the browser around it. *)
Record Form := {
  selectedMode : RoastMode;
  selectedLanguage : RoastLanguage;
  textInput : JsString;
  selectedFile : option File;
  isCameraOpen : bool;
  isImageLoading : bool;
  focusPoint : option FocusPoint;
  streamRef : option MediaStream;
  isLoading : bool;                 (* the [isLoading] prop *)
  submitted : list Submission;      (* calls of the [onSubmit] prop, newest first *)
  mounted : bool;                   (* the form is on the page *)
  mediaDevices : bool;              (* [navigator.mediaDevices.getUserMedia] exists *)
  live : gset positive;             (* tracks whose [readyState] is live *)
  alerts : list string;             (* messages shown with [alert], newest first *)
  sounds : list Synth.Effect;       (* effects played, newest first *)
  video : Video;                    (* what the [<video>] element shows *)
  context2d : bool;                 (* [canvas.getContext('2d')] gives a context *)
  encoder : bool;                   (* the JPEG encoder of [toBlob] succeeds *)
  canvas : Canvas                   (* the hidden [<canvas>] *)
}.

Definition set_selectedFile (v : option File) (f : Form) : Form :=
  {| selectedMode := selectedMode f; selectedLanguage := selectedLanguage f;
     textInput := textInput f; selectedFile := v;
     isCameraOpen := isCameraOpen f; isImageLoading := isImageLoading f;
     focusPoint := focusPoint f; streamRef := streamRef f;
     isLoading := isLoading f; submitted := submitted f;
     mounted := mounted f; mediaDevices := mediaDevices f; live := live f;
     alerts := alerts f; sounds := sounds f; video := video f;
     context2d := context2d f; encoder := encoder f; canvas := canvas f |}.

Definition set_isCameraOpen (v : bool) (f : Form) : Form :=
  {| selectedMode := selectedMode f; selectedLanguage := selectedLanguage f;
     textInput := textInput f; selectedFile := selectedFile f;
     isCameraOpen := v; isImageLoading := isImageLoading f;
     focusPoint := focusPoint f; streamRef := streamRef f;
     isLoading := isLoading f; submitted := submitted f;
     mounted := mounted f; mediaDevices := mediaDevices f; live := live f;
     alerts := alerts f; sounds := sounds f; video := video f;
     context2d := context2d f; encoder := encoder f; canvas := canvas f |}.

Definition set_isImageLoading (v : bool) (f : Form) : Form :=
  {| selectedMode := selectedMode f; selectedLanguage := selectedLanguage f;
     textInput := textInput f; selectedFile := selectedFile f;
     isCameraOpen := isCameraOpen f; isImageLoading := v;
     focusPoint := focusPoint f; streamRef := streamRef f;
     isLoading := isLoading f; submitted := submitted f;
     mounted := mounted f; mediaDevices := mediaDevices f; live := live f;
     alerts := alerts f; sounds := sounds f; video := video f;
     context2d := context2d f; encoder := encoder f; canvas := canvas f |}.

Definition set_focusPoint (v : option FocusPoint) (f : Form) : Form :=
  {| selectedMode := selectedMode f; selectedLanguage := selectedLanguage f;
     textInput := textInput f; selectedFile := selectedFile f;
     isCameraOpen := isCameraOpen f; isImageLoading := isImageLoading f;
     focusPoint := v; streamRef := streamRef f; isLoading := isLoading f;
     submitted := submitted f; mounted := mounted f;
     mediaDevices := mediaDevices f; live := live f; alerts := alerts f;
     sounds := sounds f; video := video f; context2d := context2d f;
     encoder := encoder f; canvas := canvas f |}.

Definition set_streamRef (v : option MediaStream) (f : Form) : Form :=
  {| selectedMode := selectedMode f; selectedLanguage := selectedLanguage f;
     textInput := textInput f; selectedFile := selectedFile f;
     isCameraOpen := isCameraOpen f; isImageLoading := isImageLoading f;
     focusPoint := focusPoint f; streamRef := v; isLoading := isLoading f;
     submitted := submitted f; mounted := mounted f;
     mediaDevices := mediaDevices f; live := live f; alerts := alerts f;
     sounds := sounds f; video := video f; context2d := context2d f;
     encoder := encoder f; canvas := canvas f |}.

Definition set_submitted (v : list Submission) (f : Form) : Form :=
  {| selectedMode := selectedMode f; selectedLanguage := selectedLanguage f;
     textInput := textInput f; selectedFile := selectedFile f;
     isCameraOpen := isCameraOpen f; isImageLoading := isImageLoading f;
     focusPoint := focusPoint f; streamRef := streamRef f;
     isLoading := isLoading f; submitted := v; mounted := mounted f;
     mediaDevices := mediaDevices f; live := live f; alerts := alerts f;
     sounds := sounds f; video := video f; context2d := context2d f;
     encoder := encoder f; canvas := canvas f |}.

Definition set_mounted (v : bool) (f : Form) : Form :=
  {| selectedMode := selectedMode f; selectedLanguage := selectedLanguage f;
     textInput := textInput f; selectedFile := selectedFile f;
     isCameraOpen := isCameraOpen f; isImageLoading := isImageLoading f;
     focusPoint := focusPoint f; streamRef := streamRef f;
     isLoading := isLoading f; submitted := submitted f; mounted := v;
     mediaDevices := mediaDevices f; live := live f; alerts := alerts f;
     sounds := sounds f; video := video f; context2d := context2d f;
     encoder := encoder f; canvas := canvas f |}.

Definition set_live (v : gset positive) (f : Form) : Form :=
  {| selectedMode := selectedMode f; selectedLanguage := selectedLanguage f;
     textInput := textInput f; selectedFile := selectedFile f;
     isCameraOpen := isCameraOpen f; isImageLoading := isImageLoading f;
     focusPoint := focusPoint f; streamRef := streamRef f;
     isLoading := isLoading f; submitted := submitted f;
     mounted := mounted f; mediaDevices := mediaDevices f; live := v;
     alerts := alerts f; sounds := sounds f; video := video f;
     context2d := context2d f; encoder := encoder f; canvas := canvas f |}.

Definition set_alerts (v : list string) (f : Form) : Form :=
  {| selectedMode := selectedMode f; selectedLanguage := selectedLanguage f;
     textInput := textInput f; selectedFile := selectedFile f;
     isCameraOpen := isCameraOpen f; isImageLoading := isImageLoading f;
     focusPoint := focusPoint f; streamRef := streamRef f;
     isLoading := isLoading f; submitted := submitted f;
     mounted := mounted f; mediaDevices := mediaDevices f; live := live f;
     alerts := v; sounds := sounds f; video := video f;
     context2d := context2d f; encoder := encoder f; canvas := canvas f |}.

Definition set_sounds (v : list Synth.Effect) (f : Form) : Form :=
  {| selectedMode := selectedMode f; selectedLanguage := selectedLanguage f;
     textInput := textInput f; selectedFile := selectedFile f;
     isCameraOpen := isCameraOpen f; isImageLoading := isImageLoading f;
     focusPoint := focusPoint f; streamRef := streamRef f;
     isLoading := isLoading f; submitted := submitted f;
     mounted := mounted f; mediaDevices := mediaDevices f; live := live f;
     alerts := alerts f; sounds := v; video := video f;
     context2d := context2d f; encoder := encoder f; canvas := canvas f |}.

Definition set_canvas (v : Canvas) (f : Form) : Form :=
  {| selectedMode := selectedMode f; selectedLanguage := selectedLanguage f;
     textInput := textInput f; selectedFile := selectedFile f;
     isCameraOpen := isCameraOpen f; isImageLoading := isImageLoading f;
     focusPoint := focusPoint f; streamRef := streamRef f;
     isLoading := isLoading f; submitted := submitted f;
     mounted := mounted f; mediaDevices := mediaDevices f; live := live f;
     alerts := alerts f; sounds := sounds f; video := video f;
     context2d := context2d f; encoder := encoder f; canvas := v |}.

(** State setters do nothing once the component is gone. *)
Definition setIsCameraOpen (v : bool) (f : Form) : Form :=
  if mounted f then set_isCameraOpen v f else f.

Definition setIsImageLoading (v : bool) (f : Form) : Form :=
  if mounted f then set_isImageLoading v f else f.

Definition setFocusPoint (v : option FocusPoint) (f : Form) : Form :=
  if mounted f then set_focusPoint v f else f.

Definition setSelectedFile (v : option File) (f : Form) : Form :=
  if mounted f then set_selectedFile v f else f.

Definition alert (msg : string) (f : Form) : Form :=
  set_alerts (msg :: alerts f) f.

Definition play (e : Synth.Effect) (f : Form) : Form :=
  set_sounds (e :: sounds f) f.

(** [track.stop()]. *)
Definition stop (t : Track) (f : Form) : Form :=
  set_live (live f ∖ {[ track_id t ]}) f.

(** [stream.getTracks().forEach(track => track.stop())]. *)
Definition stopTracks (s : MediaStream) (f : Form) : Form :=
  fold_left (fun f t => stop t f) s f.

Definition stopCamera (f : Form) : Form :=
  let f :=
    match streamRef f with
    | Some s => set_streamRef None (stopTracks s f)
    | None => f
    end in
  setFocusPoint None (setIsCameraOpen false f).

(** The error branch of [startCamera]: from the caught error to the text. *)
Definition errorMessage (err : JsError) : string :=
  if String.eqb (name err) "NotReadableError"
     || includes (message err) "Could not start video source"
  then "⚠️ Camera Busy or Not Readable

It looks like another app (like Zoom, Meet, or another tab) is using your camera. Please close other apps and try again."
  else if String.eqb (name err) "NotAllowedError"
          || String.eqb (name err) "PermissionDeniedError"
  then "🚫 Camera Permission Denied

Please allow camera access in your browser settings (look for the lock icon in the address bar) and reload the page."
  else if String.eqb (name err) "NotFoundError"
          || String.eqb (name err) "DevicesNotFoundError"
  then "📷 No Camera Found

We couldn't detect a camera on your device. Please connect a camera or check your device settings."
  else if String.eqb (name err) "OverconstrainedError"
  then "⚠️ Camera Constraints Error

Your camera doesn't support the requested settings. We'll try a basic connection next time."
  else if String.eqb (name err) "AbortError"
  then "⚠️ Hardware Error

The video stream was stopped. Please refresh the page and try again."
  else if String.eqb (name err) "SecurityError"
  then "🔒 Security Error

Camera access is disabled in your browser settings. Please enable media support."
  else "Could not access camera.".

(** [catch (err) { ... alert(errorMessage); stopCamera(); }]. *)
Definition failed (err : JsError) (f : Form) : Form :=
  stopCamera (alert (errorMessage err) f).

(** Where a call of the asynchronous [startCamera] is suspended. *)
Inductive Awaiting :=
  | Delay          (* the 100 ms timeout *)
  | UserCamera     (* [getUserMedia({ video: { facingMode: "user" } })] *)
  | AnyCamera      (* [getUserMedia({ video: true })] *)
  | Constraints    (* [track.applyConstraints(...)] *)
  | Finished.

(** What the browser answers to the pending request. *)
Inductive Reply :=
  | Elapsed
  | Stream (s : MediaStream)
  | Failure (e : JsError)
  | Applied.

(** The browser hands over a stream: its tracks are live. *)
Definition grant (s : MediaStream) (f : Form) : Form :=
  set_live (live f ∪ list_to_set (map track_id s)) f.

(** From [startCamera] up to its first [await]. *)
Definition startCamera (f : Form) : Awaiting * Form :=
  let f := play Synth.click f in
  let f :=
    match streamRef f with
    | Some s => set_streamRef None (stopTracks s f)
    | None => f
    end in
  (Delay, f).

(** After a stream was obtained: store it, open the camera view, then try
    continuous autofocus on the first video track. *)
Definition acquired (s : MediaStream) (f : Form) : Awaiting * Form :=
  let f := set_streamRef (Some s) f in
  let f := setIsCameraOpen true f in
  let f := play Synth.cameraStart f in
  match s with
  | [] => (Finished, f)              (* [track] is undefined: caught, ignored *)
  | track :: _ =>
      if focusable track then (Constraints, f) else (Finished, f)
  end.

(** [startCamera] goes on when the browser answers. *)
Definition resume (k : Awaiting) (r : Reply) (f : Form) : Awaiting * Form :=
  match k, r with
  | Delay, Elapsed =>
      if negb (mediaDevices f)
      then (Finished, alert "Camera API is not supported in this browser." f)
      else (UserCamera, f)
  | UserCamera, Stream s => acquired s (grant s f)
  | UserCamera, Failure _ => (AnyCamera, f)
  | AnyCamera, Stream s => acquired s (grant s f)
  | AnyCamera, Failure _ =>
      (Finished,
       failed {| name := "Error";
                 message := "Could not initialize any camera source." |} f)
  | Constraints, Applied => (Finished, f)
  | Constraints, Failure _ => (Finished, f)
  | _, _ => (k, f)
  end.

(** A whole call of [startCamera] with nothing else in between. *)
Definition answer (kf : Awaiting * Form) (r : Reply) : Awaiting * Form :=
  resume (fst kf) r (snd kf).

Definition startCameraWith (replies : list Reply) (f : Form)
  : Awaiting * Form :=
  fold_left answer replies (startCamera f).

(** The cleanup of the unmount effect; the component is gone afterwards. *)
Definition unmount (f : Form) : Form :=
  let f :=
    match streamRef f with
    | Some s => stopTracks s f
    | None => f
    end in
  set_mounted false f.

(** The form is dismounted while [startCamera] waits for the camera and
    the browser hands over the stream afterwards. *)
Definition unmountWhileOpening (s : MediaStream) (f : Form)
  : Awaiting * Form :=
  let (k, f) := startCamera f in
  let (k, f) := resume k Elapsed f in
  let f := unmount f in
  resume k (Stream s) f.

(** The refs point at the elements while the camera view is rendered. *)
Definition videoRef (f : Form) : option Video :=
  if mounted f && isCameraOpen f then Some (video f) else None.

Definition canvasRef (f : Form) : option Canvas :=
  if mounted f && isCameraOpen f then Some (canvas f) else None.

(** [canvas.toBlob(callback, 'image/jpeg')]: what the callback will get.
    A canvas without pixels, or a failing encoder, gives [null]. *)
Definition toBlob (c : Canvas) (f : Form) : option Blob :=
  if (width c =? 0)%Z || (height c =? 0)%Z || negb (encoder f) then None
  else Some {| blob_type := "image/jpeg"; blob_width := width c;
               blob_height := height c; blob_pixel := bitmap c |}.

(** [capturePhoto] up to [toBlob]; the first component is the pending
    callback argument, if [toBlob] was reached. *)
Definition capturePhoto (f : Form) : option (option Blob) * Form :=
  let f := play Synth.shutter f in
  match videoRef f, canvasRef f with
  | Some v, Some c =>
      if context2d f then
        let c := set_width (videoWidth v) c in
        let c := set_height (videoHeight v) c in
        let c := translate (inject_Z (width c)) 0 c in
        let c := scale (-1) 1 c in
        let c := drawImage v 0 0 (inject_Z (width c)) (inject_Z (height c)) c in
        (Some (toBlob c f), set_canvas c f)
      else (None, f)
  | _, _ => (None, f)
  end.

(** The canvas as [capturePhoto] leaves it: its five canvas statements. *)
Definition mirrored (v : Video) (c : Canvas) : Canvas :=
  let c := set_width (videoWidth v) c in
  let c := set_height (videoHeight v) c in
  let c := translate (inject_Z (width c)) 0 c in
  let c := scale (-1) 1 c in
  drawImage v 0 0 (inject_Z (width c)) (inject_Z (height c)) c.

(** The callback given to [toBlob]. *)
Definition onBlob (blob : option Blob) (f : Form) : Form :=
  match blob with
  | Some b =>
      let f := setIsImageLoading true f in
      let f := stopCamera f in
      let file := {| file_name := "camera-capture.jpg";
                     file_type := "image/jpeg"; file_blob := b |} in
      setSelectedFile (Some file) f
  | None => f
  end.

(** [handleSubmit], after [e.preventDefault()]. *)
Definition handleSubmit (f : Form) : Form :=
  if falsy (trim (textInput f)) && negb (isSome (selectedFile f))
  then alert "Please provide either a photo or a description!" f
  else
    let f := play Synth.click f in
    set_submitted ({| sub_mode := selectedMode f;
                      sub_language := selectedLanguage f;
                      sub_text := textInput f;
                      sub_file := selectedFile f |} :: submitted f) f.

(** The [disabled] attribute of the submit button. *)
Definition submitDisabled (f : Form) : bool :=
  isLoading f || isImageLoading f
  || (falsy (textInput f) && negb (isSome (selectedFile f))).

(** A frame whose pixels are numbered row by row. *)
Definition still (w h : Z) : Video :=
  {| videoWidth := w; videoHeight := h; pixel := fun x y => (y * w + x)%Z |}.

(** The form as it is first rendered, on a device with a camera. *)
Definition fresh : Form :=
  {| selectedMode := GENTLE_ROAST; selectedLanguage := English;
     textInput := []; selectedFile := None; isCameraOpen := false;
     isImageLoading := false; focusPoint := None; streamRef := None;
     isLoading := false; submitted := []; mounted := true;
     mediaDevices := true; live := ∅; alerts := []; sounds := [];
     video := still 0 0; context2d := true; encoder := true;
     canvas := blank 300 150 |}.

Definition denied : JsError :=
  {| name := "NotAllowedError"; message := "Permission denied" |}.

Definition frontCamera : MediaStream :=
  [ {| track_id := 1; focusable := false |} ].

(** The form once the front camera was granted. *)
Definition opened : Form :=
  snd (startCameraWith [Elapsed; Stream frontCamera] fresh).

(** The form while the video element shows the frame [v]. *)
Definition showing (v : Video) (f : Form) : Form :=
  {| selectedMode := selectedMode f; selectedLanguage := selectedLanguage f;
     textInput := textInput f; selectedFile := selectedFile f;
     isCameraOpen := isCameraOpen f; isImageLoading := isImageLoading f;
     focusPoint := focusPoint f; streamRef := streamRef f;
     isLoading := isLoading f; submitted := submitted f;
     mounted := mounted f; mediaDevices := mediaDevices f; live := live f;
     alerts := alerts f; sounds := sounds f; video := v;
     context2d := context2d f; encoder := encoder f; canvas := canvas f |}.

(** The form after the user typed [s] into the text area. *)
Definition typed (s : JsString) (f : Form) : Form :=
  {| selectedMode := selectedMode f; selectedLanguage := selectedLanguage f;
     textInput := s; selectedFile := selectedFile f;
     isCameraOpen := isCameraOpen f; isImageLoading := isImageLoading f;
     focusPoint := focusPoint f; streamRef := streamRef f;
     isLoading := isLoading f; submitted := submitted f;
     mounted := mounted f; mediaDevices := mediaDevices f; live := live f;
     alerts := alerts f; sounds := sounds f; video := video f;
     context2d := context2d f; encoder := encoder f; canvas := canvas f |}.

End Form.

(** ** The call to the generative backend ([constants.ts], lines 114-199) *)

Module Backend.

Local Open Scope string_scope.

Record File := {
  file_type : string;            (* [file.type], a media type *)
  file_bytes : list Byte.byte;
  file_readable : bool           (* the [FileReader] can read it *)
}.

(** *** What [FileReader.readAsDataURL] produces *)

Definition alphabet : list ascii :=
  list_ascii_of_string
    "ABCDEFGHIJKLMNOPQRSTUVWXYZabcdefghijklmnopqrstuvwxyz0123456789+/".

Definition digit (n : N) : ascii := nth (N.to_nat n) alphabet "="%char.

(** Standard base64 with padding. *)
Fixpoint base64 (bs : list Byte.byte) : string :=
  match bs with
  | [] => ""
  | [a] =>
      let n := (Byte.to_N a * 65536)%N in
      String (digit (n / 262144)) (String (digit ((n / 4096) mod 64)) "==")
  | [a; b] =>
      let n := (Byte.to_N a * 65536 + Byte.to_N b * 256)%N in
      String (digit (n / 262144)) (String (digit ((n / 4096) mod 64))
        (String (digit ((n / 64) mod 64)) "="))
  | a :: b :: c :: rest =>
      let n := (Byte.to_N a * 65536 + Byte.to_N b * 256 + Byte.to_N c)%N in
      String (digit (n / 262144)) (String (digit ((n / 4096) mod 64))
        (String (digit ((n / 64) mod 64)) (String (digit (n mod 64))
          (base64 rest))))
  end.

(** The result of a successful read: ["data:<type>;base64,<data>"]. *)
Definition dataURL (f : File) : string :=
  "data:" ++ file_type f ++ ";base64," ++ base64 (file_bytes f).

(** [s.split(sep)] for a one-character separator. *)
Fixpoint split (sep : ascii) (s : string) : list string :=
  match s with
  | EmptyString => [EmptyString]
  | String c s' =>
      if Ascii.eqb c sep then EmptyString :: split sep s'
      else
        match split sep s' with
        | seg :: rest => String c seg :: rest
        | [] => [String c EmptyString]
        end
  end.

Inductive Promise (A : Type) :=
  | Resolved (x : A)
  | Rejected.

Arguments Resolved {A} x.
Arguments Rejected {A}.

(** [fileToBase64]: [None] stands for [undefined]. *)
Definition fileToBase64 (f : File) : Promise (option string) :=
  if file_readable f then
    let result := dataURL f in
    let base64 := nth_error (split ","%char result) 1 in
    Resolved base64
  else Rejected.

(** *** The request and the answer *)

Inductive Part :=
  | InlineData (mimeType : string) (data : option string)
  | Text (text : string).

Record Request := { model : string; parts : list Part }.

(** What [ai.models.generateContent] does with a request. *)
Inductive Reply :=
  | Fails                               (* the call rejects *)
  | Responds (text : option string).    (* [response.text] *)

(** How [generateRoast] ends for its caller. *)
Inductive Result (Json : Type) :=
  | Returned (data : Json)
  | Thrown (message : string)      (* [throw new Error(message)] *)
  | ReadError.                     (* the reader's error event, rethrown *)

Arguments Returned {Json} data.
Arguments Thrown {Json} message.
Arguments ReadError {Json}.

Section WithPlatform.

(** Parsed JSON values and [JSON.parse] ([None]: it throws). *)
Variable Json : Type.
Variable JSON_parse : string -> option Json.

(** The prompt text built from the mode, the language, the description
    and whether a photo is attached. *)
Variable userPrompt : RoastMode -> RoastLanguage -> JsString -> bool -> string.

Variable generateContent : Request -> Reply.

(** The [parts] array, when the image could be read. *)
Definition buildParts (mode : RoastMode) (language : RoastLanguage)
  (textInput : JsString) (imageFile : option File) : Promise (list Part) :=
  let prompt := Text (userPrompt mode language textInput (isSome imageFile)) in
  match imageFile with
  | Some file =>
      match fileToBase64 file with
      | Resolved base64Data =>
          Resolved [InlineData (file_type file) base64Data; prompt]
      | Rejected => Rejected
      end
  | None => Resolved [prompt]
  end.

Definition truthy (s : option string) : bool :=
  match s with
  | Some (String _ _) => true
  | _ => false
  end.

Definition generateRoast (mode : RoastMode) (language : RoastLanguage)
  (textInput : JsString) (imageFile : option File) : Result Json :=
  match buildParts mode language textInput imageFile with
  | Rejected => ReadError
  | Resolved parts =>
      let failure := Thrown "Failed to generate roast. Please try again." in
      match generateContent {| model := "gemini-2.5-flash"; parts := parts |} with
      | Fails => failure
      | Responds text =>
          if negb (truthy text) then failure
          else
            match text with
            | Some t =>
                match JSON_parse t with
                | Some data => Returned data
                | None => failure
                end
            | None => failure
            end
      end
  end.

End WithPlatform.

(** *** Media types *)

(** Characters of a media type: RFC 6838 name characters and the slash. *)
Definition typeChar (c : ascii) : bool :=
  let n := nat_of_ascii c in
  ((48 <=? n) && (n <=? 57) || (65 <=? n) && (n <=? 90)
   || (97 <=? n) && (n <=? 122))%nat
  || List.existsb (Ascii.eqb c)
       (list_ascii_of_string "!#$&-^_.+/").

(** An image file: its type is [image/...], written in those characters. *)
Definition isImage (f : File) : bool :=
  String.prefix "image/" (file_type f)
  && forallb typeChar (list_ascii_of_string (file_type f)).

(** No occurrence of [sep] in [s]. *)
Fixpoint free (sep : ascii) (s : string) : bool :=
  match s with
  | EmptyString => true
  | String c s' => negb (Ascii.eqb c sep) && free sep s'
  end.

(** A character outside the base64 alphabet does not occur in an encoding. *)
Definition foreign (sep : ascii) : bool :=
  negb (List.existsb (Ascii.eqb sep) alphabet) && negb (Ascii.eqb sep "=").

Definition jpeg (bytes : list Byte.byte) : File :=
  {| file_type := "image/jpeg"; file_bytes := bytes; file_readable := true |}.

End Backend.

(** ** The other handlers of the form ([RoastForm.tsx]) *)

Module Controls.

Import Form.

Local Open Scope string_scope.

(** The cancel button of the camera view. *)
Definition handleStopCamera (f : Form) : Form :=
  stopCamera (play Synth.cameraStop f).

(** [e.currentTarget.getBoundingClientRect()]. *)
Record Rect := {
  rect_left : Q;
  rect_top : Q;
  rect_width : Q;
  rect_height : Q
}.

Record MouseEvent := { clientX : Q; clientY : Q; currentTarget : Rect }.

(** The argument of [track.applyConstraints]. *)
Inductive Constraints :=
  | ContinuousFocus               (* [{ focusMode: 'continuous' }] *)
  | ManualFocus (x y : Q).        (* [{ focusMode: 'manual',
                                       pointsOfInterest: [{ x, y }] }] *)

(** [modes.includes(mode)] on an array of strings. *)
Definition listed (mode : string) (modes : list string) : bool :=
  List.existsb (String.eqb mode) modes.

Section WithCapabilities.

(** [track.getCapabilities().focusMode], for a track that reports one. *)
Variable focusMode : Track -> list string.

(** [handleVideoClick] up to its [await]: the constraints it asks for, on
    which track, and the form it leaves.  The timeout it sets runs
    [hideFocus]; what [applyConstraints] answers is ignored. *)
Definition handleVideoClick (e : MouseEvent) (f : Form)
  : option (positive * Constraints) * Form :=
  match videoRef f, streamRef f with
  | Some _, Some s =>
      let rect := currentTarget e in
      let x := clientX e - rect_left rect in
      let y := clientY e - rect_top rect in
      let f := setFocusPoint
                 (Some {| focus_x := x; focus_y := y; visible := true |}) f in
      let f := play Synth.hover f in
      match s with
      | [] => (None, f)
      | track :: _ =>
          if negb (focusable track) then (None, f)
          else if listed "continuous" (focusMode track)
          then (Some (track_id track, ContinuousFocus), f)
          else if listed "manual" (focusMode track)
          then (Some (track_id track,
                      ManualFocus (x / rect_width rect) (y / rect_height rect)),
                f)
          else (None, f)
      end
  | _, _ => (None, f)
  end.

End WithCapabilities.

(** The timeout of [handleVideoClick], 600 ms later:
    [setFocusPoint(prev => prev ? { ...prev, visible: false } : null)]. *)
Definition hideFocus (f : Form) : Form :=
  setFocusPoint
    (match focusPoint f with
     | Some p => Some {| focus_x := focus_x p; focus_y := focus_y p;
                         visible := false |}
     | None => None
     end) f.

(** The form together with its [previewUrl] state; an object URL is taken
    as the file it points to. *)
Record Picker := { form : Form; previewUrl : option File }.

(** [handleFileChange]: [files] is [e.target.files]; the flag tells whether
    the 1200 ms timeout was set. *)
Definition handleFileChange (files : list File) (p : Picker) : bool * Picker :=
  match files with
  | file :: _ =>
      (true,
       {| form := setSelectedFile (Some file)
                    (setIsImageLoading true (form p));
          previewUrl := previewUrl p |})
  | [] => (false, p)
  end.

(** The timeout of [handleFileChange] and of the [toBlob] callback:
    [setPreviewUrl(URL.createObjectURL(file)); setIsImageLoading(false)]. *)
Definition showPreview (file : File) (p : Picker) : Picker :=
  if mounted (form p)
  then {| form := setIsImageLoading false (form p);
          previewUrl := Some file |}
  else p.

Definition clearFile (p : Picker) : Picker :=
  let f := play Synth.click (form p) in
  if mounted f
  then {| form := setSelectedFile None f; previewUrl := None |}
  else {| form := f; previewUrl := previewUrl p |}.

(** The fresh form on a browser without [getUserMedia]. *)
Definition oldBrowser : Form :=
  {| selectedMode := selectedMode fresh;
     selectedLanguage := selectedLanguage fresh;
     textInput := textInput fresh; selectedFile := selectedFile fresh;
     isCameraOpen := isCameraOpen fresh;
     isImageLoading := isImageLoading fresh;
     focusPoint := focusPoint fresh; streamRef := streamRef fresh;
     isLoading := isLoading fresh; submitted := submitted fresh;
     mounted := mounted fresh; mediaDevices := false; live := live fresh;
     alerts := alerts fresh; sounds := sounds fresh; video := video fresh;
     context2d := context2d fresh; encoder := encoder fresh;
     canvas := canvas fresh |}.

(** A second camera, whose track reports focus modes. *)
Definition rearCamera : MediaStream :=
  [ {| track_id := 7; focusable := true |} ].

Definition snapshot : File :=
  {| file_name := "selfie.png"; file_type := "image/png";
     file_blob := {| blob_type := "image/png"; blob_width := 1;
                     blob_height := 1; blob_pixel := fun _ _ => Some 0%Z |} |}.

End Controls.

(** ** Sequences of sound effects *)

Module SynthRuns.

Import Synth.

(** The effects [kinds] played one after the other. *)
Definition playAll (faulty : nat -> Call -> bool) (kinds : list Effect)
  (a : Audio) : Audio :=
  fold_left (fun a kind => snd (playEffect faulty kind a)) kinds a.

Definition isNew (c : Call) : bool :=
  match c with NewAudioContext => true | _ => false end.

(** How many audio contexts were constructed so far. *)
Definition contexts (a : Audio) : nat := length (List.filter isNew (calls a)).

(** The construction count agrees with the module variable. *)
Definition single (a : Audio) : Prop :=
  contexts a = if audioCtx a then 1%nat else 0%nat.

(** A computation that neither builds a context nor touches the variable. *)
Definition quiet {A : Type} (m : M A) : Prop :=
  forall a, audioCtx (snd (m a)) = audioCtx a /\
            contexts (snd (m a)) = contexts a.

Definition keeps {A : Type} (m : M A) : Prop :=
  forall a, single a -> single (snd (m a)).

(** The calls [a'] made on top of those of [a], oldest first. *)
Definition since (a a' : Audio) : list Call :=
  rev (firstn (length (calls a') - length (calls a)) (calls a')).

(** When a started source begins to sound. *)
Definition startTime (a : Audio) (t : option Q) : Q :=
  match t with Some t => t | None => currentTime a end.

End SynthRuns.

(** ** The application shell ([App.tsx]) *)

Module App.

Import Scheduler Backend.

Local Open Scope string_scope.

(** The state of the component and the sound service it drives.
    [loadingMsg] only feeds the text under the spinner and is left out. *)
Record App {Json : Type} := {
  result : option Json;
  isLoading : bool;
  error : option string;
  currentLanguage : RoastLanguage;
  isMusicPlaying : bool;
  (* the sound service *)
  sounds : list Synth.Effect;    (* effects played, newest first *)
  service : World
}.

Arguments App : clear implicits.

Definition setResult {Json} (v : option Json) (a : App Json) : App Json :=
  {| result := v; isLoading := isLoading a; error := error a;
     currentLanguage := currentLanguage a;
     isMusicPlaying := isMusicPlaying a; sounds := sounds a;
     service := service a |}.

Definition setIsLoading {Json} (v : bool) (a : App Json) : App Json :=
  {| result := result a; isLoading := v; error := error a;
     currentLanguage := currentLanguage a;
     isMusicPlaying := isMusicPlaying a; sounds := sounds a;
     service := service a |}.

Definition setError {Json} (v : option string) (a : App Json) : App Json :=
  {| result := result a; isLoading := isLoading a; error := v;
     currentLanguage := currentLanguage a;
     isMusicPlaying := isMusicPlaying a; sounds := sounds a;
     service := service a |}.

Definition setCurrentLanguage {Json} (v : RoastLanguage) (a : App Json)
  : App Json :=
  {| result := result a; isLoading := isLoading a; error := error a;
     currentLanguage := v;
     isMusicPlaying := isMusicPlaying a; sounds := sounds a;
     service := service a |}.

Definition setIsMusicPlaying {Json} (v : bool) (a : App Json) : App Json :=
  {| result := result a; isLoading := isLoading a; error := error a;
     currentLanguage := currentLanguage a;
     isMusicPlaying := v; sounds := sounds a; service := service a |}.

Definition set_service {Json} (v : World) (a : App Json) : App Json :=
  {| result := result a; isLoading := isLoading a; error := error a;
     currentLanguage := currentLanguage a;
     isMusicPlaying := isMusicPlaying a; sounds := sounds a; service := v |}.

(** A sound effect is played.  Of the variables it shares with the
    scheduler it touches what its first statement, [resumeCtx()], touches;
    its own nodes are not part of [World]. *)
Definition play {Json} (e : Synth.Effect) (a : App Json) : App Json :=
  {| result := result a; isLoading := isLoading a; error := error a;
     currentLanguage := currentLanguage a;
     isMusicPlaying := isMusicPlaying a; sounds := e :: sounds a;
     service := snd (resumeCtx (service a)) |}.

(** [m || d] for a message that may be [undefined]. *)
Definition orDefault (m : option string) (d : string) : string :=
  match m with
  | Some (String c s) => String c s
  | _ => d
  end.

(** Truthiness of the [error] state. *)
Definition shown (e : option string) : bool :=
  match e with
  | Some (String _ _) => true
  | _ => false
  end.

Definition start {Json} (hasAudio : bool) : App Json :=
  {| result := None; isLoading := false; error := None;
     currentLanguage := English; isMusicPlaying := false; sounds := [];
     service := initial hasAudio |}.

(** The button and the service agree, and the service is steady. *)
Definition in_tune {Json} (a : App Json) : Prop :=
  steady (service a) /\ musicEnabled (service a) = isMusicPlaying a.

Definition handleReset {Json} (a : App Json) : App Json :=
  setError None (setResult None a).

(** The [onClick] of the button in the error panel. *)
Definition tryAgain {Json} (a : App Json) : App Json := setError None a.

(** What happens to the page, one event-loop task at a time. *)
Inductive Action :=
  | Press                       (* the music button: [handleToggleMusic] *)
  | Sound (e : Synth.Effect)    (* some handler plays an effect *)
  | Timeout (h : positive)      (* the browser runs timeout [h] *)
  | Tick (dt : Q).              (* the audio clock moves on *)

Section WithPlatform.

Variable Json : Type.
Variable JSON_parse : string -> option Json.
Variable userPrompt : RoastMode -> RoastLanguage -> JsString -> bool -> string.
Variable generateContent : Request -> Reply.

(** Truthiness of a parsed JSON value: all but [null], [false], [0] and
    the empty string. *)
Variable isTruthy : Json -> bool.

Variable random : nat -> Q.

(** [err.message] of what [generateRoast] threw; the reader's error event
    has no such property. *)
Definition message (r : Result Json) : option string :=
  match r with
  | Thrown m => Some m
  | _ => None
  end.

(** [handleRoastSubmit] up to its [await]. *)
Definition submitting (language : RoastLanguage) (a : App Json) : App Json :=
  let a := setIsLoading true a in
  let a := setError None a in
  let a := setResult None a in
  setCurrentLanguage language a.

(** [handleRoastSubmit] from the moment [generateRoast] settled with [r]. *)
Definition settled (r : Result Json) (a : App Json) : App Json :=
  let a :=
    match r with
    | Returned data => play Synth.success (setResult (Some data) a)
    | _ => setError (Some (orDefault (message r) "Something went wrong.")) a
    end in
  setIsLoading false a.

Definition handleRoastSubmit (mode : RoastMode) (language : RoastLanguage)
  (text : JsString) (file : option File) (a : App Json) : App Json :=
  let a := submitting language a in
  settled (generateRoast Json JSON_parse userPrompt generateContent
             mode language text file) a.

(** What the page renders. *)
Definition showsResult (a : App Json) : bool :=
  match result a with
  | Some data => isTruthy data
  | None => false
  end.

Definition showsError (a : App Json) : bool := shown (error a).

Definition showsForm (a : App Json) : bool :=
  negb (isLoading a) && negb (showsResult a) && negb (showsError a).

(** [None] when [fuel] turns of the scheduler's loop were not enough. *)
Definition handleToggleMusic (fuel : nat) (a : App Json)
  : option (App Json) :=
  let a := play Synth.click a in
  let newState := negb (isMusicPlaying a) in
  let a := setIsMusicPlaying newState a in
  match toggleBackgroundMusic random fuel newState (service a) with
  | Some w => Some (set_service w a)
  | None => None
  end.

Definition act (fuel : nat) (x : Action) (a : App Json)
  : option (App Json) :=
  match x with
  | Press => handleToggleMusic fuel a
  | Sound e => Some (play e a)
  | Timeout h =>
      match step random fuel (Fire h) (service a) with
      | Some w => Some (set_service w a)
      | None => None
      end
  | Tick dt =>
      match step random fuel (Elapse dt) (service a) with
      | Some w => Some (set_service w a)
      | None => None
      end
  end.

Fixpoint run (fuel : nat) (xs : list Action) (a : App Json)
  : option (App Json) :=
  match xs with
  | [] => Some a
  | x :: xs =>
      match act fuel x a with
      | None => None
      | Some a => run fuel xs a
      end
  end.

End WithPlatform.

End App.

(** ** The result card ([RoastResult.tsx]) *)

Module RoastResult.

Local Open Scope string_scope.

(** The values of the enum [RoastMode] ([types.ts]). *)
Definition modeValue (m : RoastMode) : string :=
  match m with
  | GENTLE_ROAST => "Gentle Roast"
  | COMPLIMENT => "Wholesome Compliment"
  | WHOLESOME_ROAST => "Wholesome Roast"
  end.

(** The style of the card, from the type string of the answer. *)
Definition modeKey (roastType : string) : RoastMode :=
  if includes roastType "Compliment" then COMPLIMENT
  else if includes roastType "Wholesome Roast" then WHOLESOME_ROAST
  else GENTLE_ROAST.

Record Voice := {
  lang : string;
  name : string;
  default : bool
}.

Record Utterance := {
  text : string;
  utterance_lang : string;
  voice : option Voice;        (* [None]: the browser chooses *)
  rate : Q;
  pitch : Q
}.

Record Card := {
  isSpeaking : bool;
  availableVoices : list Voice;
  (* browser *)
  spoken : list Utterance;     (* calls of [speechSynthesis.speak], newest first *)
  cancels : nat;               (* calls of [speechSynthesis.cancel] *)
  sounds : list Synth.Effect
}.

(** [a || b] on a voice or [undefined]. *)
Definition orElse (a b : option Voice) : option Voice :=
  match a with
  | Some _ => a
  | None => b
  end.

Section WithLocale.

(** [String.prototype.toLowerCase]. *)
Variable toLowerCase : string -> string.

(** The language tag and the voice [handleSpeak] gives the utterance. *)
Definition selectVoice (language : RoastLanguage) (availableVoices : list Voice)
  : string * option Voice :=
  let find p := List.find p availableVoices in
  match language with
  | Hindi =>
      ("hi-IN",
       orElse (find (fun v => String.eqb (lang v) "hi-IN"
                              && includes (name v) "Google"))
      (orElse (find (fun v => String.eqb (lang v) "hi-IN"))
      (orElse (find (fun v => String.eqb (lang v) "hi"))
      (orElse (find (fun v => includes (toLowerCase (name v)) "hindi"))
              None))))
  | RomanUrdu =>
      ("en-IN",
       orElse (find (fun v => String.eqb (lang v) "en-IN"
                              && includes (name v) "Google"))
      (orElse (find (fun v => String.eqb (lang v) "en-IN"))
      (orElse (find (fun v => includes (name v) "India"
                              && includes (lang v) "en"))
      (orElse (find (fun v => String.eqb (lang v) "en-GB"))
              None))))
  | English =>
      ("en-US",
       orElse (find (fun v => includes (name v) "Google US"))
      (orElse (find (fun v => String.prefix "en-US" (lang v)))
      (orElse (find (fun v => default v))
              None)))
  end.

Definition handleSpeak (message : string) (language : RoastLanguage)
  (c : Card) : Card :=
  let played := Synth.click :: sounds c in
  if isSpeaking c then
    {| isSpeaking := false; availableVoices := availableVoices c;
       spoken := spoken c; cancels := S (cancels c); sounds := played |}
  else
    let (tag, selectedVoice) := selectVoice language (availableVoices c) in
    let utterance :=
      {| text := message; utterance_lang := tag; voice := selectedVoice;
         rate := 1; pitch := 1 |} in
    {| isSpeaking := isSpeaking c; availableVoices := availableVoices c;
       spoken := utterance :: spoken c; cancels := cancels c;
       sounds := played |}.

End WithLocale.

Definition googleHindi : Voice :=
  {| lang := "hi-IN"; name := "Google Hindi"; default := false |}.

Definition lekha : Voice :=
  {| lang := "hi-IN"; name := "Lekha"; default := false |}.

Definition samantha : Voice :=
  {| lang := "en-US"; name := "Samantha"; default := true |}.

Definition card (voices : list Voice) : Card :=
  {| isSpeaking := false; availableVoices := voices; spoken := [];
     cancels := 0; sounds := [] |}.

End RoastResult.

(** * Properties *)

Lemma Qltb_lt (x y : Q) : Qltb x y = true <-> x < y.
Proof.
  unfold Qltb. rewrite negb_true_iff, <- not_true_iff_false, Qle_bool_iff.
  split; [apply Qnot_le_lt | apply Qlt_not_le].
Qed.

Lemma Qltb_ge (x y : Q) : Qltb x y = false <-> y <= x.
Proof.
  unfold Qltb. rewrite negb_false_iff. apply Qle_bool_iff.
Qed.

(** ** Facts about the music scheduler *)

Module SchedulerFacts.

Import Scheduler.

Section WithRandom.

Variable random : nat -> Q.

Local Abbreviation Math_random := (Scheduler.Math_random random).
Local Abbreviation scheduleNote := (Scheduler.scheduleNote random).
Local Abbreviation advance := (Scheduler.advance random).
Local Abbreviation drain := (Scheduler.drain random).
Local Abbreviation scheduler := (Scheduler.scheduler random).
Local Abbreviation toggleBackgroundMusic :=
  (Scheduler.toggleBackgroundMusic random).
Local Abbreviation step := (Scheduler.step random).
Local Abbreviation exec := (Scheduler.exec random).

Lemma same_control_refl (w : World) : same_control w w.
Proof. unfold same_control; tauto. Qed.

Lemma same_control_trans (w1 w2 w3 : World) :
  same_control w1 w2 -> same_control w2 w3 -> same_control w1 w3.
Proof.
  unfold same_control; intros H1 H2.
  destruct H1 as (?&?&?&?&?&?&?&?), H2 as (?&?&?&?&?&?&?&?).
  repeat split; try congruence; auto.
Qed.

Lemma getCtx_spec (w : World) :
  fst (getCtx w) = available w /\
  same_control w (snd (getCtx w)) /\
  (fst (getCtx w) = true -> audioCtx (snd (getCtx w)) = true) /\
  nextNoteTime (snd (getCtx w)) = nextNoteTime w /\
  emitted (snd (getCtx w)) = emitted w /\
  draws (snd (getCtx w)) = draws w /\
  (audioCtx w = true -> snd (getCtx w) = w).
Proof.
  unfold getCtx, same_control, available.
  destruct (audioCtx w) eqn:Hc; simpl.
  - rewrite Hc. simpl. tauto.
  - destruct (audioClass w) eqn:Ha; simpl; rewrite ?Hc, ?Ha; simpl;
      repeat split; try reflexivity; try discriminate; auto.
Qed.

Ltac use_getCtx w :=
  let b := fresh "ctx" in
  let w' := fresh "w" in
  let Hg := fresh "Hg" in
  pose proof (getCtx_spec w) as Hg;
  destruct (getCtx w) as [b w'];
  cbn [fst snd] in Hg.

Lemma scheduleNote_spec (time : Q) (w : World) :
  same_control w (scheduleNote time w) /\
  nextNoteTime (scheduleNote time w) = nextNoteTime w /\
  exists s, emitted (scheduleNote time w)
            = {| slot_time := time; slot_sound := s |} :: emitted w.
Proof.
  unfold scheduleNote. use_getCtx w.
  destruct Hg as (_ & Hs & _ & Hn & He & _).
  destruct ctx; simpl.
  - destruct (restDraw (random (draws w0))); simpl;
      (split; [exact Hs | split; [exact Hn | rewrite He; eauto]]).
  - split; [exact Hs | split; [exact Hn | rewrite He; eauto]].
Qed.

Lemma advance_spec (w : World) :
  same_control w (advance w) /\
  (exists r s,
      nextNoteTime (advance w)
      = nextNoteTime w + (60 / TEMPO + (r * (5 # 100) - (25 # 1000))) /\
      (exists n, r = random n) /\
      emitted (advance w)
      = {| slot_time := nextNoteTime w; slot_sound := s |} :: emitted w).
Proof.
  unfold advance.
  destruct (scheduleNote_spec (nextNoteTime w) w) as (Hs & Hn & s & He).
  set (w1 := scheduleNote (nextNoteTime w) w) in *.
  simpl. split.
  - exact Hs.
  - exists (random (draws w1)), s. rewrite Hn. eauto.
Qed.

Lemma drain_spec (fuel : nat) :
  forall w w', drain fuel w = Some w' ->
    same_control w w' /\
    exists new, emitted w' = new ++ emitted w.
Proof.
  induction fuel as [|fuel IH]; intros w w' H; simpl in H.
  - destruct (Qltb _ _); [discriminate|]. injection H as <-.
    split; [apply same_control_refl | exists []; reflexivity].
  - destruct (Qltb _ _).
    + apply IH in H. destruct H as (Hs & new & He).
      destruct (advance_spec w) as (Hs' & r & s & _ & _ & He').
      split; [eapply same_control_trans; eauto|].
      exists (new ++ [{| slot_time := nextNoteTime w; slot_sound := s |}]).
      rewrite He, He', <- app_assoc. reflexivity.
    + injection H as <-.
      split; [apply same_control_refl | exists []; reflexivity].
Qed.

Lemma resumeCtx_spec (w : World) :
  fst (resumeCtx w) = available w /\
  same_control w (snd (resumeCtx w)) /\
  nextNoteTime (snd (resumeCtx w)) = nextNoteTime w /\
  emitted (snd (resumeCtx w)) = emitted w.
Proof.
  unfold resumeCtx. use_getCtx w.
  destruct Hg as (Hf & Hs & _ & Hn & He & _).
  destruct (ctx && suspended w0); simpl; auto.
Qed.

(** [scheduler] either returns at its guard or drains and arms one timeout. *)
Lemma scheduler_spec (fuel : nat) (w w' : World) :
  scheduler fuel w = Some w' ->
  (exists new, emitted w' = new ++ emitted w) /\
  musicEnabled w' = musicEnabled w /\ available w' = available w /\
  if available w && musicEnabled w
  then timers w' = timers w ++ [nextHandle w] /\
       timerID w' = Some (nextHandle w)
  else timers w' = timers w /\ timerID w' = timerID w /\
       emitted w' = emitted w /\ nextNoteTime w' = nextNoteTime w.
Proof.
  unfold scheduler. use_getCtx w.
  destruct Hg as (Hf & Hs & _ & Hn & He & _).
  destruct Hs as (Hm & Ht & Hl & Hh & _ & _ & Ha & _).
  rewrite <- Ha, <- Hm, <- Hl, <- Hh, <- Ht, <- He, <- Hn.
  assert (Hc : available w0 = ctx) by congruence.
  clear Hf Hm Ht Hl Hh Ha Hn He.
  destruct ctx; simpl.
  - destruct (musicEnabled w0) eqn:Hen; simpl.
    + destruct (drain fuel w0) as [w1|] eqn:Hd; [|discriminate].
      intros H; injection H as <-.
      apply drain_spec in Hd. destruct Hd as (Hs & new & He1).
      destruct Hs as (Hm1 & Ht1 & Hl1 & Hh1 & _ & _ & Ha1 & _).
      rewrite Hc. unfold available in *. simpl.
      rewrite Hl1, Hh1, Hm1, He1, Ha1.
      split; [eauto|]. repeat split; assumption.
    + intros H; injection H as <-. rewrite Hc, Hen. simpl.
      split; [exists []; reflexivity|]. repeat split; assumption.
  - intros H; injection H as <-. rewrite Hc. simpl.
    split; [exists []; reflexivity|]. repeat split; assumption.
Qed.

Lemma filter_out_single (h : positive) :
  List.filter (fun k => negb (Pos.eqb k h)) [h] = [].
Proof. simpl. rewrite Pos.eqb_refl. reflexivity. Qed.

(** Every event keeps a steady world steady, provided no [enable(true)]
    arrives while the music is enabled. *)
Lemma step_steady (fuel : nat) (ev : Event) (w w' : World) :
  steady w -> calm (musicEnabled w) [ev] = true ->
  step fuel ev w = Some w' ->
  steady w' /\ available w' = available w /\
  (forall b, ev = Toggle b -> musicEnabled w' = b) /\
  ((forall b, ev <> Toggle b) -> musicEnabled w' = musicEnabled w).
Proof.
  intros Hst Hcalm Hstep. unfold steady in *.
  destruct ev as [enable | h | dt]; simpl in Hstep.
  - (* toggle *)
    unfold toggleBackgroundMusic in Hstep.
    pose proof (resumeCtx_spec w) as (Hf & Hs & _ & _).
    destruct (resumeCtx w) as [ctx w1]. cbn [fst snd] in *.
    destruct Hs as (Hm & Ht & Hl & Hh & _ & _ & Ha & _).
    destruct enable; simpl in Hstep.
    + simpl in Hcalm. rewrite andb_true_r, negb_true_iff in Hcalm.
      destruct ctx.
      * apply scheduler_spec in Hstep.
        destruct Hstep as (_ & Hm' & Ha' & Hif).
        unfold available in *. simpl in *.
        rewrite Ha, <- Hf in *. simpl in Hif.
        destruct Hif as (Hl' & Ht').
        rewrite Ha', Hm'. unfold tidy in *. rewrite Hm', Hcalm in *.
        destruct Hst as (_ & Hnil). rewrite Hl, Hnil in Hl'. simpl in Hl'.
        repeat split; eauto; try congruence. 
        intros H. exfalso. apply (H true). reflexivity.
      * injection Hstep as <-. unfold available in *. simpl.
        rewrite Ha, <- Hf. unfold silent in *. simpl.
        rewrite <- Hf in Hst. destruct Hst as (Hid & Hnil).
        repeat split; try congruence.
        intros H. exfalso. apply (H true). reflexivity.
    + assert (Hgoal : forall w2, timerID w2 = None -> timers w2 = [] ->
                musicEnabled w2 = false -> available w2 = available w ->
                (if available w2 then tidy w2 else silent w2) /\
                available w2 = available w /\
                (forall b, Toggle false = Toggle b -> musicEnabled w2 = b) /\
                ((forall b, Toggle false <> Toggle b) ->
                 musicEnabled w2 = musicEnabled w)).
      { intros w2 H1 H2 H3 H4. rewrite H4. unfold tidy, silent.
        rewrite H3, H1, H2.
        split; [destruct (available w); auto|].
        split; [reflexivity|]. split.
        - intros b Hb. injection Hb as <-. reflexivity.
        - intros H. exfalso. apply (H false). reflexivity. }
      rewrite Ht in Hstep.
      assert (Hcase : (exists h, timerID w = Some h /\ timers w = [h])
                      \/ (timerID w = None /\ timers w = [])).
      { destruct (available w); unfold tidy, silent in Hst; auto.
        destruct (musicEnabled w); auto. }
      destruct Hcase as [(h & Hid & Hnil) | (Hid & Hnil)];
        rewrite Hid in Hstep; injection Hstep as <-;
        apply Hgoal; simpl; auto; try congruence.
      rewrite Hl, Hnil. apply filter_out_single.
  - (* a timeout runs *)
    destruct (List.existsb (Pos.eqb h) (timers w)) eqn:Hex.
    + apply scheduler_spec in Hstep.
      destruct Hstep as (_ & Hm' & Ha' & Hif).
      unfold available in *. simpl in *.
      destruct (audioCtx w || audioClass w) eqn:Hav; unfold tidy, silent in Hst.
      * destruct (musicEnabled w) eqn:Hen.
        -- destruct Hst as (h' & Hh' & Hl). rewrite Hl in *.
           simpl in Hex. rewrite orb_false_r in Hex.
           apply Pos.eqb_eq in Hex. subst h'.
           rewrite filter_out_single in Hif. simpl in Hif.
           destruct Hif as (Hl' & Ht').
           rewrite Ha'. unfold tidy. rewrite Hm'.
           repeat split; eauto; try congruence.
        -- destruct Hst as (_ & Hl). rewrite Hl in Hex. discriminate.
      * destruct Hst as (_ & Hl). rewrite Hl in Hex. discriminate.
    + injection Hstep as <-. repeat split; auto. intros; discriminate.
  - (* the clock moves *)
    assert (Hw : available w' = available w /\ musicEnabled w' = musicEnabled w
                 /\ timerID w' = timerID w /\ timers w' = timers w).
    { destruct (Qle_bool 0 dt); injection Hstep as <-; simpl; auto. }
    destruct Hw as (Ha & Hm & Ht & Hl).
    unfold tidy, silent in *. rewrite Ha, Hm, Ht, Hl.
    repeat split; auto. intros; discriminate.
Qed.

Lemma calm_cons (b : bool) (ev : Event) (evs : list Event) :
  calm b (ev :: evs) = true ->
  calm b [ev] = true /\
  calm (match ev with Toggle e => e | _ => b end) evs = true.
Proof.
  destruct ev as [[|]| |]; simpl; try tauto.
  rewrite andb_true_r. intros H. apply andb_prop in H. tauto.
Qed.

Lemma exec_steady (fuel : nat) (evs : list Event) :
  forall w w', steady w -> calm (musicEnabled w) evs = true ->
    exec fuel evs w = Some w' ->
    steady w' /\ available w' = available w.
Proof.
  induction evs as [|ev evs IH]; intros w w' Hst Hcalm Hex; simpl in Hex.
  - injection Hex as <-. auto.
  - destruct (step fuel ev w) as [w1|] eqn:Hstep; [|discriminate].
    apply calm_cons in Hcalm. destruct Hcalm as (Hc1 & Hc2).
    destruct (step_steady _ _ _ _ Hst Hc1 Hstep) as (Hst1 & Ha1 & Ht & Hn).
    assert (Hen : musicEnabled w1
                  = match ev with Toggle e => e | _ => musicEnabled w end).
    { destruct ev; [apply Ht; reflexivity | |]; apply Hn; intros; discriminate. }
    rewrite <- Hen in Hc2.
    destruct (IH w1 w' Hst1 Hc2 Hex) as (Hst' & Ha').
    split; [exact Hst' | congruence].
Qed.

Lemma initial_steady (hasAudio : bool) : steady (initial hasAudio).
Proof. destruct hasAudio; unfold steady, tidy, silent; simpl; auto. Qed.

(** While the music is disabled and nobody enables it, nothing is scheduled. *)
Lemma step_quiet (fuel : nat) (ev : Event) (w w' : World) :
  musicEnabled w = false -> unstarted [ev] = true ->
  step fuel ev w = Some w' ->
  emitted w' = emitted w /\ musicEnabled w' = false.
Proof.
  intros Hen Hun Hstep. destruct ev as [[|] | h | dt]; simpl in *.
  - discriminate.
  - unfold toggleBackgroundMusic in Hstep.
    pose proof (resumeCtx_spec w) as (_ & _ & _ & He).
    destruct (resumeCtx w) as [ctx w1]. cbn [fst snd] in *. simpl in Hstep.
    destruct (timerID w1); injection Hstep as <-; simpl; auto.
  - destruct (List.existsb (Pos.eqb h) (timers w)).
    + apply scheduler_spec in Hstep. simpl in Hstep.
      destruct Hstep as (_ & Hm & _ & Hif).
      rewrite Hen, andb_false_r in Hif. rewrite Hm. tauto.
    + injection Hstep as <-. auto.
  - destruct (Qle_bool 0 dt); injection Hstep as <-; simpl; auto.
Qed.

Lemma exec_quiet (fuel : nat) (evs : list Event) :
  forall w w', musicEnabled w = false -> unstarted evs = true ->
    exec fuel evs w = Some w' ->
    emitted w' = emitted w /\ musicEnabled w' = false.
Proof.
  induction evs as [|ev evs IH]; intros w w' Hen Hun Hex; simpl in Hex.
  - injection Hex as <-. auto.
  - destruct (step fuel ev w) as [w1|] eqn:Hstep; [|discriminate].
    assert (Hun1 : unstarted [ev] = true /\ unstarted evs = true).
    { destruct ev as [[|]| |]; simpl in *; auto. discriminate. }
    destruct Hun1 as (Hu1 & Hu2).
    destruct (step_quiet _ _ _ _ Hen Hu1 Hstep) as (He1 & Hen1).
    destruct (IH w1 w' Hen1 Hu2 Hex) as (He' & Hen').
    split; congruence.
Qed.

(** *** Lists of times *)

Lemma baseInterval_value : baseInterval == 6 # 11.
Proof. reflexivity. Qed.

Lemma well_spaced_snoc (ts : list Q) (x y : Q) :
  well_spaced (ts ++ [x]) -> gap x y -> well_spaced ((ts ++ [x]) ++ [y]).
Proof.
  intros Hw Hg i t t' Hi Hi'.
  destruct (Nat.lt_ge_cases (S i) (length (ts ++ [x]))) as [Hlt | Hge].
  - rewrite nth_error_app1 in Hi by lia.
    rewrite nth_error_app1 in Hi' by lia.
    exact (Hw i t t' Hi Hi').
  - assert (Hlen : length (ts ++ [x]) = S (length ts)).
    { rewrite length_app. simpl. lia. }
    assert (Hi2 : (S i < length ((ts ++ [x]) ++ [y]))%nat).
    { apply nth_error_Some. congruence. }
    rewrite length_app in Hi2. simpl in Hi2.
    assert (i = length ts) by lia. subst i.
    rewrite nth_error_app1 in Hi by lia.
    rewrite nth_error_app2 in Hi by lia.
    rewrite nth_error_app2 in Hi' by lia.
    rewrite Hlen in Hi'. rewrite !Nat.sub_diag in *. simpl in *.
    injection Hi as <-. injection Hi' as <-. exact Hg.
Qed.

Lemma well_spaced_prefix (ts : list Q) (y : Q) :
  well_spaced (ts ++ [y]) -> well_spaced ts.
Proof.
  intros Hw i t t' Hi Hi'. apply (Hw i t t').
  - rewrite nth_error_app1; [exact Hi|]. apply nth_error_Some. congruence.
  - rewrite nth_error_app1; [exact Hi'|]. apply nth_error_Some. congruence.
Qed.

Lemma well_spaced_increasing (ts : list Q) : well_spaced ts -> increasing ts.
Proof.
  intros Hw i j. revert i.
  induction j as [|j IH]; intros i t t' Hij Hi Hj; [lia|].
  destruct (Nat.eq_dec i j) as [-> | Hne].
  - apply (Hw j t t' Hi Hj).
  - assert (Hj' : exists u, nth_error ts j = Some u).
    { destruct (nth_error ts j) as [u|] eqn:E; [eauto|].
      apply nth_error_None in E.
      assert (S j < length ts)%nat by (apply nth_error_Some; congruence). lia. }
    destruct Hj' as (u & Hu).
    apply Qlt_trans with u.
    + apply (IH i t u); [lia | exact Hi | exact Hu].
    + apply (Hw j u t' Hu Hj).
Qed.

Lemma chain_well_spaced (a : Q) (new : list Slot) :
  forall b, chain a new b -> well_spaced (schedule new ++ [b]).
Proof.
  unfold schedule.
  induction new as [|s older IH]; intros b Hc; simpl in *.
  - intros [|[|i]] t t' Hi Hi'; simpl in *; discriminate.
  - destruct Hc as (Hgap & Hc).
    apply well_spaced_snoc; [apply IH; exact Hc|].
    pose proof baseInterval_value as Hb.
    unfold gap. unfold maxSwing in *.
    destruct Hgap as (Hlo & Hhi). split; [lra | split; lra].
Qed.

(** *** Pacing of one run *)

Section Paced.

(** [Math.random()] returns a number in [0, 1). *)
Hypothesis random_range : forall n, 0 <= random n < 1.

Lemma advance_gap (w : World) :
  baseInterval - maxSwing <= nextNoteTime (advance w) - nextNoteTime w
  /\ nextNoteTime (advance w) - nextNoteTime w < baseInterval + maxSwing.
Proof.
  destruct (advance_spec w) as (_ & r & s & Hn & (n & Hr) & _).
  rewrite Hn. pose proof (random_range n) as Hrange. rewrite <- Hr in Hrange.
  unfold baseInterval, maxSwing, TEMPO. lra.
Qed.

Lemma advance_run (base : list Slot) (a : Q) (w : World) :
  run_from base a w -> run_from base a (advance w).
Proof.
  intros (new & He & Hc).
  pose proof (advance_gap w) as Hgap.
  destruct (advance_spec w) as (_ & r & s & _ & _ & He').
  exists ({| slot_time := nextNoteTime w; slot_sound := s |} :: new).
  split.
  - rewrite He', He. reflexivity.
  - simpl. split; [exact Hgap | exact Hc].
Qed.

Lemma drain_run (base : list Slot) (a : Q) (fuel : nat) :
  forall w w', drain fuel w = Some w' -> run_from base a w -> run_from base a w'.
Proof.
  induction fuel as [|fuel IH]; intros w w' H Hr; simpl in H.
  - destruct (Qltb _ _); [discriminate|]. injection H as <-. exact Hr.
  - destruct (Qltb _ _).
    + eapply IH; [exact H|]. apply advance_run. exact Hr.
    + injection H as <-. exact Hr.
Qed.

Lemma scheduler_run (base : list Slot) (a : Q) (fuel : nat) (w w' : World) :
  scheduler fuel w = Some w' -> run_from base a w -> run_from base a w'.
Proof.
  unfold scheduler. use_getCtx w.
  destruct Hg as (_ & _ & _ & Hn & He & _).
  intros H Hr.
  assert (Hr0 : run_from base a w0).
  { destruct Hr as (new & He0 & Hc). exists new. rewrite He, Hn. auto. }
  destruct (negb ctx || negb (musicEnabled w0)).
  - injection H as <-. exact Hr0.
  - destruct (drain fuel w0) as [w1|] eqn:Hd; [|discriminate].
    injection H as <-. apply drain_run with (base := base) (a := a) in Hd; auto.
Qed.

Lemma step_run (base : list Slot) (a : Q) (fuel : nat) (ev : Event)
  (w w' : World) :
  unstarted [ev] = true -> step fuel ev w = Some w' ->
  run_from base a w -> run_from base a w'.
Proof.
  intros Hun Hstep Hr. destruct ev as [[|] | h | dt]; simpl in *.
  - discriminate.
  - unfold toggleBackgroundMusic in Hstep.
    pose proof (resumeCtx_spec w) as (_ & _ & Hn & He).
    destruct (resumeCtx w) as [ctx w1]. cbn [fst snd] in *. simpl in Hstep.
    destruct Hr as (new & He0 & Hc).
    destruct (timerID w1); injection Hstep as <-; exists new; simpl;
      rewrite He, Hn; auto.
  - destruct (List.existsb (Pos.eqb h) (timers w)).
    + eapply scheduler_run; [exact Hstep|].
      destruct Hr as (new & He0 & Hc). exists new. simpl. auto.
    + injection Hstep as <-. exact Hr.
  - destruct Hr as (new & He0 & Hc).
    destruct (Qle_bool 0 dt); injection Hstep as <-; exists new; simpl; auto.
Qed.

Lemma exec_run (base : list Slot) (a : Q) (fuel : nat) (evs : list Event) :
  forall w w', unstarted evs = true -> exec fuel evs w = Some w' ->
    run_from base a w -> run_from base a w'.
Proof.
  induction evs as [|ev evs IH]; intros w w' Hun Hex Hr; simpl in Hex.
  - injection Hex as <-. exact Hr.
  - destruct (step fuel ev w) as [w1|] eqn:Hstep; [|discriminate].
    assert (Hun1 : unstarted [ev] = true /\ unstarted evs = true).
    { destruct ev as [[|]| |]; simpl in *; auto. discriminate. }
    destruct Hun1 as (Hu1 & Hu2).
    eapply IH; [exact Hu2 | exact Hex |].
    eapply step_run; eauto.
Qed.

(** [enable(true)] starts a run at [currentTime + 0.1]. *)
Lemma toggle_on_run (fuel : nat) (w w' : World) :
  toggleBackgroundMusic fuel true w = Some w' ->
  exists a, run_from (emitted w) a w'.
Proof.
  unfold toggleBackgroundMusic.
  pose proof (resumeCtx_spec w) as (_ & _ & Hn & He).
  destruct (resumeCtx w) as [ctx w1]. cbn [fst snd] in *. simpl.
  destruct ctx; intros H.
  - exists (currentTime w1 + (1 # 10)).
    eapply scheduler_run; [exact H|].
    exists []. simpl. auto.
  - injection H as <-. exists (nextNoteTime w). exists []. simpl. auto.
Qed.

(** *** Termination: enough fuel always exists *)

Lemma drain_stop (w : World) :
  Qltb (nextNoteTime w) (currentTime w + SCHEDULE_AHEAD_TIME) = false ->
  forall m, drain m w = Some w.
Proof. intros H [|m]; simpl; rewrite H; reflexivity. Qed.

Lemma drain_bound (n : nat) :
  forall w,
    2 * (currentTime w + SCHEDULE_AHEAD_TIME - nextNoteTime w)
    <= inject_Z (Z.of_nat n) ->
    exists w', forall m, (n <= m)%nat -> drain m w = Some w'.
Proof.
  induction n as [|n IH]; intros w Hb.
  - exists w. intros m _. apply drain_stop. apply Qltb_ge.
    change (inject_Z (Z.of_nat 0)) with 0 in Hb. lra.
  - destruct (Qltb (nextNoteTime w) (currentTime w + SCHEDULE_AHEAD_TIME))
      eqn:Hcond.
    + pose proof (advance_gap w) as (Hlo & _).
      destruct (advance_spec w) as ((_ & _ & _ & _ & Hct & _) & _).
      pose proof baseInterval_value as Hbase. unfold maxSwing in Hlo.
      rewrite Nat2Z.inj_succ, <- Z.add_1_r, inject_Z_plus in Hb.
      destruct (IH (advance w)) as (w' & Hw').
      { rewrite Hct. change (inject_Z 1) with 1 in Hb. lra. }
      exists w'. intros [|m] Hm; [lia|]. simpl. rewrite Hcond.
      apply Hw'. lia.
    + exists w. intros m _. apply drain_stop. exact Hcond.
Qed.

Lemma drain_settles (w : World) : settles (fun m => drain m w).
Proof.
  set (x := 2 * (currentTime w + SCHEDULE_AHEAD_TIME - nextNoteTime w)).
  destruct (drain_bound (Z.to_nat (Qceiling x)) w) as (w' & Hw').
  - fold x. apply Qle_trans with (inject_Z (Qceiling x)).
    + apply Qle_ceiling.
    + rewrite <- Zle_Qle. lia.
  - exists (Z.to_nat (Qceiling x)), w'. exact Hw'.
Qed.

Lemma scheduler_settles (w : World) : settles (fun m => scheduler m w).
Proof.
  unfold scheduler. destruct (getCtx w) as [ctx w0].
  destruct (negb ctx || negb (musicEnabled w0)).
  - exists 0%nat, w0. reflexivity.
  - destruct (drain_settles w0) as (n & w1 & Hn).
    exists n. eexists. intros m Hm. rewrite (Hn m Hm). reflexivity.
Qed.

Lemma step_settles (ev : Event) (w : World) : settles (fun m => step m ev w).
Proof.
  destruct ev as [enable | h | dt]; simpl.
  - unfold toggleBackgroundMusic. destruct (resumeCtx w) as [ctx w1].
    destruct enable; simpl.
    + destruct ctx; [apply scheduler_settles|].
      exists 0%nat. eexists. reflexivity.
    + destruct (timerID w1); exists 0%nat; eexists; reflexivity.
  - destruct (List.existsb (Pos.eqb h) (timers w));
      [apply scheduler_settles|].
    exists 0%nat. eexists. reflexivity.
  - destruct (Qle_bool 0 dt); exists 0%nat; eexists; reflexivity.
Qed.

Lemma exec_settles (evs : list Event) :
  forall w, settles (fun m => exec m evs w).
Proof.
  induction evs as [|ev evs IH]; intros w; simpl.
  - exists 0%nat, w. reflexivity.
  - destruct (step_settles ev w) as (n1 & w1 & H1).
    destruct (IH w1) as (n2 & w2 & H2).
    exists (Nat.max n1 n2), w2. intros m Hm.
    rewrite (H1 m) by lia. apply H2. lia.
Qed.

End Paced.

End WithRandom.

(** *** Small runs, evaluated *)

Lemma half_range : forall n, 0 <= half n < 1.
Proof. intros n. unfold half. split; lra. Qed.

Example first_note_after_lead_in :
  option_map (fun w => schedule (emitted w))
    (exec half 3 [Toggle true; Elapse (1 # 40); Fire 1] (initial true))
  = Some [1 # 10].
Proof. reflexivity. Qed.

Example stop_clears_the_timer :
  option_map (fun w => (timerID w, timers w))
    (exec half 3 [Toggle true; Toggle false] (initial true))
  = Some (None, []).
Proof. reflexivity. Qed.

(** C2, as stated, fails: a second [enable(true)] while the music runs arms
    a second timeout and leaves the first one pending; each of the two then
    re-arms itself when it runs, so two chains go on side by side. *)
Lemma reentrant_enable_arms_second_timer :
  option_map timers
    (exec half 3 [Toggle true; Toggle true] (initial true))
  = Some [1%positive; 2%positive]
  /\ option_map timers
       (exec half 3 [Toggle true; Toggle true; Fire 1; Fire 2] (initial true))
     = Some [3%positive; 4%positive].
Proof. split; reflexivity. Qed.

(** C2 (amended): in every sequence of toggles, timeouts and clock ticks in
    which [enable(true)] is never called while the music is already enabled,
    the run goes through and at most one scheduling callback is pending
    after each operation. *)
Theorem one_timer_chain_when_toggles_alternate :
  forall (random : nat -> Q) (hasAudio : bool) (evs : list Event),
    (forall n, 0 <= random n < 1) ->
    calm false evs = true ->
    (exists fuel w', exec random fuel evs (initial hasAudio) = Some w') /\
    (forall fuel w', exec random fuel evs (initial hasAudio) = Some w' ->
       (length (timers w') <= 1)%nat).
Proof.
  intros random hasAudio evs Hrange Hcalm. split.
  - destruct (exec_settles random Hrange evs (initial hasAudio))
      as (n & w' & Hn).
    exists n, w'. apply Hn. lia.
  - intros fuel w' Hex.
    destruct (exec_steady random fuel evs (initial hasAudio) w'
                (initial_steady hasAudio) Hcalm Hex) as (Hst & _).
    unfold steady, tidy, silent in Hst.
    destruct (available w').
    + destruct (musicEnabled w').
      * destruct Hst as (h & _ & ->). simpl. lia.
      * destruct Hst as (_ & ->). simpl. lia.
    + destruct Hst as (_ & ->). simpl. lia.
Qed.

Lemma one_timer_chain_witness :
  (forall n, 0 <= half n < 1) /\
  calm false [Toggle true; Fire 1; Toggle false; Toggle true] = true /\
  (exists fuel w',
     exec half fuel [Toggle true; Fire 1; Toggle false; Toggle true]
       (initial true) = Some w') /\
  (forall fuel w',
     exec half fuel [Toggle true; Fire 1; Toggle false; Toggle true]
       (initial true) = Some w' ->
     (length (timers w') <= 1)%nat).
Proof.
  split; [exact half_range|]. split; [reflexivity|].
  apply (one_timer_chain_when_toggles_alternate half true
           [Toggle true; Fire 1; Toggle false; Toggle true]).
  - exact half_range.
  - reflexivity.
Defined.



Example two_seconds_of_music :
  option_map (fun w => length (emitted w))
    (exec half 5 [Toggle true; Elapse 1; Fire 1; Elapse 1; Fire 2]
       (initial true))
  = Some 4%nat.
Proof. reflexivity. Qed.




(** *** One slot: rest or pitch *)

Lemma count_range (a b n : nat) :
  forall s,
    length (List.filter (fun i => (a <=? i)%nat && (i <? b)%nat) (seq s n))
    = (Nat.min b (s + n) - Nat.max a s)%nat.
Proof.
  induction n as [|n IH]; intros s; simpl.
  - lia.
  - destruct (Nat.leb_spec a s), (Nat.ltb_spec s b); simpl; rewrite IH; lia.
Qed.

Lemma count_grid (p : Q -> bool) (n : positive) (a b : nat) :
  (a <= b <= Pos.to_nat n)%nat ->
  (forall i, (i < Pos.to_nat n)%nat ->
     p (Z.of_nat i # n) = ((a <=? i)%nat && (i <? b)%nat)) ->
  count p (grid n) = (b - a)%nat.
Proof.
  intros Hab Hp. unfold count, grid.
  assert (Hf : forall l, List.filter p (map (fun i => Z.of_nat i # n) l)
                = map (fun i => Z.of_nat i # n)
                    (List.filter (fun i => p (Z.of_nat i # n)) l)).
  { induction l as [|x l IHl]; simpl; [reflexivity|].
    destruct (p (Z.of_nat x # n)); simpl; rewrite IHl; reflexivity. }
  rewrite Hf, length_map.
  rewrite (List.filter_ext_in _ (fun i => (a <=? i)%nat && (i <? b)%nat)).
  - rewrite count_range. lia.
  - intros i Hi. apply in_seq in Hi. apply Hp. lia.
Qed.

Lemma restDraw_grid (m : positive) (i : nat) :
  restDraw (Z.of_nat i # (10 * m))
  = ((0 <=? i)%nat && (i <? 2 * Pos.to_nat m)%nat).
Proof.
  simpl (0 <=? i)%nat. simpl andb.
  apply eq_true_iff_eq. unfold restDraw. rewrite Qltb_lt, Nat.ltb_lt.
  unfold Qlt. simpl Qnum. simpl Qden. lia.
Qed.

Lemma noteIndex_grid (m : positive) (i : nat) :
  noteIndex (Z.of_nat i # (10 * m)) = (Z.of_nat i / Z.pos m)%Z.
Proof.
  unfold noteIndex, Qfloor. simpl.
  change (Z.of_nat 10) with 10%Z.
  rewrite Pos.mul_1_r, Pos2Z.inj_mul.
  rewrite (Z.mul_comm (Z.of_nat i) 10).
  apply Z.div_mul_cancel_l; lia.
Qed.

Lemma hit_grid (m : positive) (k i : nat) :
  Z.eqb (noteIndex (Z.of_nat i # (10 * m))) (Z.of_nat k)
  = ((k * Pos.to_nat m <=? i)%nat && (i <? (k + 1) * Pos.to_nat m)%nat).
Proof.
  rewrite noteIndex_grid. apply eq_true_iff_eq.
  rewrite Z.eqb_eq, andb_true_iff, Nat.leb_le, Nat.ltb_lt.
  pose proof (Pos2Z.is_pos m) as Hm.
  pose proof (Z.mul_div_le (Z.of_nat i) (Z.pos m) Hm) as Hlo.
  pose proof (Z.mul_succ_div_gt (Z.of_nat i) (Z.pos m) Hm) as Hhi.
  split.
  - intros H. rewrite H in Hlo, Hhi. nia.
  - intros (H1 & H2). symmetry.
    apply (Z.div_unique (Z.of_nat i) (Z.pos m) (Z.of_nat k)
             (Z.of_nat i - Z.of_nat k * Z.pos m)); nia.
Qed.



Example half_picks_the_sixth_pitch :
  emitted (advance half (set_audioCtx true (initial true)))
  = [{| slot_time := 0; slot_sound := Pluck (Some (52325 # 100)) |}].
Proof. reflexivity. Qed.

End SchedulerFacts.

(** ** Facts about the tone synthesizer *)

Module SynthFacts.

Import Synth.

Lemma try_ignore_returns (m : M unit) (a : Audio) :
  exists a', try_ignore m a = (Return tt, a').
Proof.
  unfold try_ignore. destruct (m a) as [[x|] a']; eauto.
Qed.

Lemma resumeCtx_without_audio (faulty : nat -> Call -> bool) (a : Audio) :
  audioCtx a = false -> audioClass a = false ->
  resumeCtx faulty a = (Return false, a).
Proof.
  intros Hc Ha. unfold resumeCtx, bind, getCtx. rewrite Hc, Ha. reflexivity.
Qed.

Example click_with_sound :
  fst (playClick (fun _ _ => false) (page true)) = Return tt /\
  length (calls (snd (playClick (fun _ _ => false) (page true)))) = 13%nat.
Proof. split; reflexivity. Qed.

Example unguarded_body_throws :
  fst (clickBody (fun n _ => Nat.eqb n 2) (page true)) = Throw.
Proof. reflexivity. Qed.

Example click_with_failing_oscillator :
  playClick (fun n _ => Nat.eqb n 2) (page true)
  = (Return tt,
     with_attempt (with_call Resume (with_ctx (with_call NewAudioContext
       (page true))))).
Proof. reflexivity. Qed.

Example shutter_fills_the_buffer :
  samples (snd (playCapture (fun _ _ => false) (page true)))
  = (72 * 100)%nat.
Proof. reflexivity. Qed.

(** C7: whatever the kind of effect and however the audio subsystem
    behaves, [playEffect] returns normally to its caller; when the platform
    has no audio class it changes nothing and makes no call at all. *)
Theorem playEffect_never_throws :
  forall (faulty : nat -> Call -> bool) (kind : Effect) (a : Audio),
    (exists a', playEffect faulty kind a = (Return tt, a')) /\
    (audioCtx a = false /\ audioClass a = false ->
     playEffect faulty kind a = (Return tt, a)).
Proof.
  intros faulty kind a. split.
  - destruct kind; apply try_ignore_returns.
  - intros (Hc & Ha).
    pose proof (resumeCtx_without_audio faulty a Hc Ha) as Hr.
    destruct kind; unfold playEffect, playClick, playHover, playCapture,
      playCameraStart, playCameraStop, playSuccess, try_ignore, bind;
      rewrite Hr; reflexivity.
Qed.

End SynthFacts.

(** ** Facts about the form *)

Module FormFacts.

Import Form.

Local Open Scope string_scope.

(** *** Tracks *)

Lemma stopTracks_fields (s : MediaStream) :
  forall f,
    alerts (stopTracks s f) = alerts f /\
    mounted (stopTracks s f) = mounted f /\
    mediaDevices (stopTracks s f) = mediaDevices f /\
    isCameraOpen (stopTracks s f) = isCameraOpen f /\
    streamRef (stopTracks s f) = streamRef f /\
    selectedFile (stopTracks s f) = selectedFile f /\
    sounds (stopTracks s f) = sounds f /\
    live (stopTracks s f) = live f ∖ list_to_set (map track_id s).
Proof.
  induction s as [|t s IH]; intros f; simpl.
  - do 7 (split; [reflexivity|]). rewrite difference_empty_L. reflexivity.
  - destruct (IH (stop t f)) as (H1 & H2 & H3 & H4 & H5 & H6 & H7 & H8).
    unfold stopTracks in *. simpl in *.
    rewrite H1, H2, H3, H4, H5, H6, H7, H8.
    do 7 (split; [reflexivity|]). apply difference_difference_l_L.
Qed.

(** Closing the view of a mounted form changes two state variables only. *)
Lemma view_closed (g : Form) :
  mounted g = true ->
  setFocusPoint None (setIsCameraOpen false g)
  = set_focusPoint None (set_isCameraOpen false g).
Proof.
  intros Hm. unfold setFocusPoint, setIsCameraOpen. rewrite Hm. simpl.
  rewrite Hm. reflexivity.
Qed.

Lemma stopCamera_closed (f : Form) :
  mounted f = true ->
  isCameraOpen (stopCamera f) = false /\ streamRef (stopCamera f) = None /\
  alerts (stopCamera f) = alerts f /\
  selectedFile (stopCamera f) = selectedFile f /\
  mounted (stopCamera f) = true /\
  sounds (stopCamera f) = sounds f /\
  forall s, streamRef f = Some s ->
    live (stopCamera f) = live f ∖ list_to_set (map track_id s).
Proof.
  intros Hm. unfold stopCamera.
  destruct (streamRef f) as [s|] eqn:Hs.
  - destruct (stopTracks_fields s f) as (H1 & H2 & _ & _ & _ & H6 & H7 & H8).
    rewrite view_closed by (simpl; congruence). simpl.
    rewrite H1, H2, H6, H7, H8, Hm.
    do 6 (split; [reflexivity|]). intros s' Hs'. injection Hs' as <-.
    reflexivity.
  - rewrite view_closed by exact Hm. simpl. rewrite Hs, Hm.
    do 6 (split; [reflexivity|]). intros; discriminate.
Qed.

(** *** Starting the camera *)

Example classifier_knows_permission_denial :
  errorMessage denied
  = "🚫 Camera Permission Denied

Please allow camera access in your browser settings (look for the lock icon in the address bar) and reload the page.".
Proof. reflexivity. Qed.

Lemma startCamera_fields (f : Form) :
  fst (startCamera f) = Delay /\
  streamRef (snd (startCamera f)) = None /\
  alerts (snd (startCamera f)) = alerts f /\
  mounted (snd (startCamera f)) = mounted f /\
  mediaDevices (snd (startCamera f)) = mediaDevices f.
Proof.
  unfold startCamera. simpl.
  destruct (streamRef f) as [s|] eqn:Hs; simpl.
  - destruct (stopTracks_fields s (play Synth.click f))
      as (H1 & H2 & H3 & _).
    rewrite H1, H2, H3. repeat split; reflexivity.
  - rewrite Hs. repeat split; reflexivity.
Qed.

(** C1 (what the code does): when both requests are rejected, whatever
    the two errors are, and so also for [NotAllowedError] and
    [PermissionDeniedError], the error that reaches the handler is the
    [Error] thrown at [if (!stream)]; the message shown is the generic
    one, and the session ends closed with no stream. *)
Theorem rejected_camera_shows_generic_message :
  forall (f : Form) (e1 e2 : JsError),
    mounted f = true -> mediaDevices f = true ->
    fst (startCameraWith [Elapsed; Failure e1; Failure e2] f) = Finished /\
    alerts (snd (startCameraWith [Elapsed; Failure e1; Failure e2] f))
    = "Could not access camera." :: alerts f /\
    isCameraOpen (snd (startCameraWith [Elapsed; Failure e1; Failure e2] f))
    = false /\
    streamRef (snd (startCameraWith [Elapsed; Failure e1; Failure e2] f))
    = None.
Proof.
  intros f e1 e2 Hm Hd.
  destruct (startCamera_fields f) as (Hk & Hs & Ha & Hm' & Hd').
  unfold startCameraWith. simpl. unfold answer.
  destruct (startCamera f) as [k g]. simpl in *. subst k. simpl.
  rewrite Hd', Hd. simpl. unfold failed.
  destruct (stopCamera_closed (alert (errorMessage
              {| name := "Error";
                 message := "Could not initialize any camera source." |}) g))
    as (H1 & H2 & H3 & _).
  { simpl. congruence. }
  rewrite H1, H2, H3. simpl. rewrite Ha. repeat split; reflexivity.
Qed.

Lemma rejected_camera_witness :
  mounted fresh = true /\ mediaDevices fresh = true /\
  alerts (snd (startCameraWith [Elapsed; Failure denied; Failure denied] fresh))
  = "Could not access camera." :: alerts fresh.
Proof.
  split; [reflexivity|]. split; [reflexivity|].
  exact (proj1 (proj2
    (rejected_camera_shows_generic_message fresh denied denied
       eq_refl eq_refl))).
Defined.

(** *** Leaving the page *)

(** With the camera open, the cleanup stops every track of the held stream. *)
Lemma unmount_stops_held_stream (f : Form) (s : MediaStream) :
  streamRef f = Some s ->
  forall t, In t s -> track_id t ∉ live (unmount f).
Proof.
  intros Hs t Ht. unfold unmount. rewrite Hs. simpl.
  destruct (stopTracks_fields s f) as (_ & _ & _ & _ & _ & _ & _ & H8).
  rewrite H8. rewrite elem_of_difference, elem_of_list_to_set.
  intros (_ & Hn). apply Hn. apply list_elem_of_In.
  apply in_map. exact Ht.
Qed.

(** C8 (what the code does): if the form is dismounted while
    [getUserMedia] is pending, the cleanup finds no stream to stop; the
    stream granted afterwards is stored and all of its tracks stay live. *)
Theorem stream_granted_after_unmount_stays_live :
  forall (f : Form) (s : MediaStream),
    mediaDevices f = true ->
    streamRef (snd (unmountWhileOpening s f)) = Some s /\
    mounted (snd (unmountWhileOpening s f)) = false /\
    forall t, In t s -> track_id t ∈ live (snd (unmountWhileOpening s f)).
Proof.
  intros f s Hd.
  destruct (startCamera_fields f) as (Hk & Hs & Ha & Hm' & Hd').
  unfold unmountWhileOpening.
  destruct (startCamera f) as [k g]. simpl in *. subst k. simpl.
  rewrite Hd', Hd. simpl. unfold unmount. rewrite Hs.
  unfold acquired, setIsCameraOpen. simpl.
  assert (Hl : forall t, In t s ->
            track_id t ∈ live g ∪ list_to_set (map track_id s)).
  { intros t Ht. apply elem_of_union_r, elem_of_list_to_set.
    apply list_elem_of_In, in_map. exact Ht. }
  destruct s as [|t0 s']; [|destruct (focusable t0)]; simpl;
    (split; [reflexivity|]; split; [reflexivity|]; exact Hl).
Qed.

Lemma stream_granted_after_unmount_witness :
  mediaDevices fresh = true /\
  forall t, In t frontCamera ->
    track_id t ∈ live (snd (unmountWhileOpening frontCamera fresh)).
Proof.
  split; [reflexivity|].
  exact (proj2 (proj2
    (stream_granted_after_unmount_stays_live fresh frontCamera eq_refl))).
Defined.

(** *** Submitting *)

Lemma trimStart_blank (s : JsString) :
  forallb isWhiteSpace s = true -> trimStart s = [].
Proof.
  induction s as [|c s IH]; simpl; [reflexivity|].
  intros H. apply andb_prop in H. destruct H as (Hc & Hs).
  rewrite Hc. apply IH. exact Hs.
Qed.

Lemma trim_blank (s : JsString) :
  forallb isWhiteSpace s = true -> trim s = [].
Proof.
  intros H. unfold trim. rewrite (trimStart_blank s H). reflexivity.
Qed.

(** C10: [onSubmit] is called only when the trimmed text is non-empty or a
    file is selected; for a non-empty text of white space only and no file,
    the handler shows the alert and calls nothing, while the text part of
    the button's [disabled] condition is false (the button is disabled only
    while loading). *)
Theorem submit_needs_text_or_file :
  forall (f : Form),
    (submitted (handleSubmit f) = submitted f \/
     (submitted (handleSubmit f)
      = {| sub_mode := selectedMode f; sub_language := selectedLanguage f;
           sub_text := textInput f; sub_file := selectedFile f |}
        :: submitted f /\
      (trim (textInput f) <> [] \/ is_Some (selectedFile f)))) /\
    (textInput f <> [] /\ forallb isWhiteSpace (textInput f) = true /\
     selectedFile f = None ->
     submitted (handleSubmit f) = submitted f /\
     alerts (handleSubmit f)
     = "Please provide either a photo or a description!" :: alerts f /\
     submitDisabled f = isLoading f || isImageLoading f).
Proof.
  intros f. split.
  - unfold handleSubmit.
    destruct (trim (textInput f)) as [|c t] eqn:Ht;
      destruct (selectedFile f) as [file|] eqn:Hf; simpl;
      rewrite ?Ht, ?Hf; simpl; auto;
      right; (split; [reflexivity|]);
      first [left; discriminate | right; eauto].
  - intros (Hne & Hws & Hf).
    unfold handleSubmit, submitDisabled.
    rewrite (trim_blank _ Hws), Hf. simpl.
    destruct (textInput f); [contradiction|]. simpl.
    rewrite orb_false_r. repeat split; reflexivity.
Qed.

Example spaces_are_blocked :
  submitted (handleSubmit (typed [32; 32; 9]%N fresh)) = [] /\
  submitDisabled (typed [32; 32; 9]%N fresh) = false.
Proof. split; reflexivity. Qed.

(** *** Taking the photo *)

Lemma Qfloor_half (n : Z) : Qfloor (inject_Z n + (1 # 2)) = n.
Proof.
  pose proof (Qfloor_le (inject_Z n + (1 # 2))) as Hle.
  pose proof (Qlt_floor (inject_Z n + (1 # 2))) as Hlt.
  assert (H1 : (Qfloor (inject_Z n + (1 # 2)) < n + 1)%Z).
  { rewrite Zlt_Qlt, inject_Z_plus. change (inject_Z 1) with 1. lra. }
  assert (H2 : (n < Qfloor (inject_Z n + (1 # 2)) + 1)%Z).
  { rewrite Zlt_Qlt. lra. }
  lia.
Qed.

Lemma mirrored_size (v : Video) (c : Canvas) :
  width (mirrored v c) = videoWidth v /\ height (mirrored v c) = videoHeight v.
Proof. split; reflexivity. Qed.

Lemma mirror_preimage (w h : Z) (a b : Q) :
  fst (preimage (ctm (scale (-1) 1 (translate (inject_Z w) 0 (blank w h)))) a b)
  == inject_Z w - a /\
  snd (preimage (ctm (scale (-1) 1 (translate (inject_Z w) 0 (blank w h)))) a b)
  == b.
Proof.
  cbn [preimage scale translate blank with_ctm ctm identity
       ma mb mc md me mf fst snd].
  split; field.
Qed.

Lemma mirrored_pixel (v : Video) (c : Canvas) (x y : Z) :
  (0 <= x < videoWidth v)%Z -> (0 <= y < videoHeight v)%Z ->
  bitmap (mirrored v c) x y = Some (pixel v (videoWidth v - 1 - x) y).
Proof.
  intros Hx Hy. unfold mirrored.
  cbn [bitmap drawImage width height set_width set_height blank].
  set (W := videoWidth v) in *. set (H := videoHeight v) in *.
  change (set_height H (set_width W c)) with (blank W H).
  change (width (scale (-1) 1 (translate (inject_Z W) 0 (blank W H))))
    with W.
  change (height (scale (-1) 1 (translate (inject_Z W) 0 (blank W H))))
    with H.
  pose proof (mirror_preimage W H (inject_Z x + (1 # 2))
                (inject_Z y + (1 # 2))) as (Hu & Ht).
  destruct (preimage _ _ _) as [u t]. cbn [fst snd] in Hu, Ht.
  assert (Hin : (0 <=? x)%Z && (x <? W)%Z && (0 <=? y)%Z && (y <? H)%Z = true).
  { rewrite !andb_true_iff, !Z.leb_le, !Z.ltb_lt. lia. }
  rewrite Hin.
  assert (HxQ : inject_Z 0 <= inject_Z x /\ inject_Z x + 1 <= inject_Z W).
  { split; [rewrite <- Zle_Qle; lia|].
    change 1 with (inject_Z 1). rewrite <- inject_Z_plus, <- Zle_Qle. lia. }
  assert (HyQ : inject_Z 0 <= inject_Z y /\ inject_Z y + 1 <= inject_Z H).
  { split; [rewrite <- Zle_Qle; lia|].
    change 1 with (inject_Z 1). rewrite <- inject_Z_plus, <- Zle_Qle. lia. }
  change (inject_Z 0) with 0 in HxQ, HyQ.
  assert (Hiu : inside 0 (0 + inject_Z W) u = true).
  { unfold inside. rewrite andb_true_iff, Qle_bool_iff, Qltb_lt. lra. }
  assert (Hit : inside 0 (0 + inject_Z H) t = true).
  { unfold inside. rewrite andb_true_iff, Qle_bool_iff, Qltb_lt. lra. }
  rewrite Hiu, Hit. simpl andb. cbv iota.
  assert (Hfx : Qfloor ((u - 0) * inject_Z W / inject_Z W) = (W - 1 - x)%Z).
  { transitivity (Qfloor (inject_Z (W - 1 - x) + (1 # 2)));
      [|apply Qfloor_half].
    apply Qfloor_comp.
    rewrite Hu. unfold Z.sub. rewrite !inject_Z_plus, !inject_Z_opp.
    change (inject_Z 1) with 1. field. lra. }
  assert (Hfy : Qfloor ((t - 0) * inject_Z H / inject_Z H) = y).
  { transitivity (Qfloor (inject_Z y + (1 # 2))); [|apply Qfloor_half].
    apply Qfloor_comp. rewrite Ht. field. lra. }
  rewrite Hfx, Hfy. reflexivity.
Qed.

Example opened_is_open :
  isCameraOpen opened = true /\ streamRef opened = Some frontCamera /\
  mounted opened = true.
Proof. repeat split; reflexivity. Qed.




Example two_pixels_swap :
  option_map (fun b => (blob_pixel b 0 0, blob_pixel b 1 0))
    (default None (fst (capturePhoto (showing (still 2 1) opened))))
  = Some (Some 1%Z, Some 0%Z).
Proof. vm_compute. reflexivity. Qed.

End FormFacts.

(** ** Facts about the backend call *)

Module BackendFacts.

Import Backend.

Local Open Scope string_scope.

Example base64_of_Man :
  base64 [Byte.x4d; Byte.x61; Byte.x6e] = "TWFu" /\
  base64 [Byte.x4d; Byte.x61] = "TWE=" /\
  base64 [Byte.x4d] = "TQ==".
Proof. repeat split; reflexivity. Qed.

Example jpeg_header_encoded :
  fileToBase64 (jpeg [Byte.xff; Byte.xd8; Byte.xff])
  = Resolved (Some "/9j/").
Proof. reflexivity. Qed.

(** *** Strings without the separator *)

Lemma free_app (sep : ascii) (s1 s2 : string) :
  free sep (s1 ++ s2) = free sep s1 && free sep s2.
Proof.
  induction s1 as [|c s1 IH]; simpl; [reflexivity|].
  rewrite IH, andb_assoc. reflexivity.
Qed.

Lemma split_free (sep : ascii) (s : string) :
  free sep s = true -> split sep s = [s].
Proof.
  induction s as [|c s IH]; simpl; [reflexivity|].
  intros H. apply andb_prop in H. destruct H as (Hc & Hs).
  apply negb_true_iff in Hc. rewrite Hc, (IH Hs). reflexivity.
Qed.

Lemma split_app (sep : ascii) (s1 s2 : string) :
  free sep s1 = true ->
  split sep (s1 ++ String sep s2) = s1 :: split sep s2.
Proof.
  induction s1 as [|c s1 IH]; simpl.
  - intros _. rewrite Ascii.eqb_refl. reflexivity.
  - intros H. apply andb_prop in H. destruct H as (Hc & Hs).
    apply negb_true_iff in Hc. rewrite Hc, (IH Hs). reflexivity.
Qed.

Lemma digit_foreign (sep : ascii) (n : N) :
  foreign sep = true -> Ascii.eqb (digit n) sep = false.
Proof.
  unfold foreign, digit. intros H. apply andb_prop in H.
  destruct H as (Ha & He). apply negb_true_iff in Ha, He.
  destruct (Nat.lt_ge_cases (N.to_nat n) (length alphabet)) as [Hlt | Hge].
  - destruct (Ascii.eqb (nth (N.to_nat n) alphabet "="%char) sep) eqn:E;
      [|reflexivity].
    apply Ascii.eqb_eq in E.
    assert (Hin : In sep alphabet).
    { rewrite <- E. apply nth_In. exact Hlt. }
    assert (Hex : List.existsb (Ascii.eqb sep) alphabet = true).
    { apply existsb_exists. exists sep. split; [exact Hin|].
      apply Ascii.eqb_refl. }
    congruence.
  - rewrite nth_overflow by exact Hge. rewrite Ascii.eqb_sym. exact He.
Qed.

Lemma base64_foreign (sep : ascii) :
  foreign sep = true -> forall bs, free sep (base64 bs) = true.
Proof.
  intros Hsep.
  assert (He : Ascii.eqb "=" sep = false).
  { unfold foreign in Hsep. apply andb_prop in Hsep.
    destruct Hsep as (_ & He). apply negb_true_iff in He.
    rewrite Ascii.eqb_sym. exact He. }
  assert (H : forall n bs, (length bs <= n)%nat -> free sep (base64 bs) = true).
  { induction n as [|n IH]; intros bs Hlen.
    - destruct bs; [reflexivity | simpl in Hlen; lia].
    - destruct bs as [|a [|b [|c rest]]]; cbn [base64 free];
        rewrite ?(digit_foreign sep _ Hsep), ?He; cbn [negb andb];
        try reflexivity.
      apply IH. simpl in Hlen. lia. }
  intros bs. apply (H (length bs)). lia.
Qed.

Lemma typeChar_not_comma (c : ascii) :
  typeChar c = true -> Ascii.eqb c "," = false.
Proof.
  destruct c as [[] [] [] [] [] [] [] []]; vm_compute; congruence.
Qed.

Lemma type_free (s : string) :
  forallb typeChar (list_ascii_of_string s) = true -> free "," s = true.
Proof.
  induction s as [|c s IH]; simpl; [reflexivity|].
  intros H. apply andb_prop in H. destruct H as (Hc & Hs).
  rewrite (typeChar_not_comma c Hc), (IH Hs). reflexivity.
Qed.

Lemma append_assoc (s1 s2 s3 : string) :
  (s1 ++ s2) ++ s3 = s1 ++ (s2 ++ s3).
Proof.
  induction s1 as [|c s1 IH]; [reflexivity|].
  change (String c ((s1 ++ s2) ++ s3) = String c (s1 ++ (s2 ++ s3))).
  rewrite IH. reflexivity.
Qed.

Lemma fileToBase64_image (f : File) :
  isImage f = true -> file_readable f = true ->
  fileToBase64 f = Resolved (Some (base64 (file_bytes f))).
Proof.
  intros Hi Hr. unfold fileToBase64, dataURL. rewrite Hr.
  unfold isImage in Hi. apply andb_prop in Hi. destruct Hi as (_ & Hty).
  apply type_free in Hty.
  change ("data:" ++ file_type f ++ ";base64," ++ base64 (file_bytes f))
    with ("data:" ++ (file_type f ++ (";base64" ++
            String "," (base64 (file_bytes f))))).
  rewrite <- !append_assoc.
  rewrite split_app.
  - rewrite split_free by (apply base64_foreign; reflexivity). reflexivity.
  - rewrite !free_app, Hty. reflexivity.
Qed.



Example unparseable_answer_is_generic_failure :
  generateRoast unit (fun _ => None) (fun _ _ _ _ => "prompt")
    (fun _ => Responds (Some "not json")) COMPLIMENT Hindi [] None
  = Thrown "Failed to generate roast. Please try again.".
Proof. reflexivity. Qed.

End BackendFacts.

(** ** More facts about the music scheduler *)

Module SchedulerMore.

Import Scheduler.

Section WithRandom.

Variable random : nat -> Q.

(** The window of one tick: what [drain] schedules lies before
    [currentTime + SCHEDULE_AHEAD_TIME], and it stops at or beyond it. *)
Lemma drain_window (fuel : nat) :
  forall w w', drain random fuel w = Some w' ->
    currentTime w' = currentTime w /\
    currentTime w + SCHEDULE_AHEAD_TIME <= nextNoteTime w' /\
    exists new,
      emitted w' = new ++ emitted w /\
      Forall (fun s => slot_time s < currentTime w + SCHEDULE_AHEAD_TIME) new.
Proof.
  induction fuel as [|fuel IH]; intros w w' H; simpl in H.
  - destruct (Qltb _ _) eqn:Hc; [discriminate|]. injection H as <-.
    apply Qltb_ge in Hc. split; [reflexivity|]. split; [exact Hc|].
    exists []. split; [reflexivity | constructor].
  - destruct (Qltb _ _) eqn:Hc.
    + apply IH in H. destruct H as (Ht & Hn & new & He & Hall).
      destruct (SchedulerFacts.advance_spec random w)
        as ((_ & _ & _ & _ & Hct & _) & r & s & _ & _ & He').
      rewrite Hct in *. apply Qltb_lt in Hc.
      split; [exact Ht|]. split; [exact Hn|].
      exists (new ++ [{| slot_time := nextNoteTime w; slot_sound := s |}]).
      split.
      * rewrite He, He', <- app_assoc. reflexivity.
      * apply Forall_app. split; [exact Hall|].
        constructor; [exact Hc | constructor].
    + injection H as <-. apply Qltb_ge in Hc.
      split; [reflexivity|]. split; [exact Hc|].
      exists []. split; [reflexivity | constructor].
Qed.

End WithRandom.



(** *** What a slot sounds like *)

Local Abbreviation tuned :=
  (fun s : Slot =>
     slot_sound s = Rest \/
     exists f, slot_sound s = Pluck (Some f) /\ In f SCALE).

Section InRange.

Variable random : nat -> Q.
Hypothesis random_range : forall n, 0 <= random n < 1.

Lemma noteIndex_range (r : Q) : 0 <= r < 1 -> (0 <= noteIndex r < 10)%Z.
Proof.
  intros (Hlo & Hhi). unfold noteIndex. simpl length.
  change (inject_Z (Z.of_nat 10)) with 10. split.
  - change 0%Z with (Qfloor 0). apply Qfloor_resp_le. lra.
  - pose proof (Qfloor_le (r * 10)) as Hf.
    rewrite Zlt_Qlt. change (inject_Z 10) with 10. lra.
Qed.

Lemma scheduleNote_tuned (time : Q) (w : World) :
  audioCtx w = true ->
  exists s, emitted (scheduleNote random time w) = s :: emitted w /\ tuned s.
Proof.
  intros Hc. unfold scheduleNote, getCtx. rewrite Hc. simpl.
  destruct (restDraw (random (draws w))); simpl.
  - eexists. split; [reflexivity|]. left. reflexivity.
  - pose proof (noteIndex_range _ (random_range (S (draws w)))) as Hk.
    unfold index. destruct (Z.ltb_spec (noteIndex (random (S (draws w)))) 0);
      [lia|].
    destruct (nth_error SCALE (Z.to_nat (noteIndex (random (S (draws w))))))
      as [f|] eqn:Hf.
    + eexists. split; [reflexivity|]. right. exists f.
      split; [reflexivity|]. exact (nth_error_In SCALE _ Hf).
    + apply nth_error_None in Hf. simpl length in Hf. lia.
Qed.

Lemma advance_tuned (w : World) :
  audioCtx w = true ->
  audioCtx (advance random w) = true /\
  exists s, emitted (advance random w) = s :: emitted w /\ tuned s.
Proof.
  intros Hc.
  destruct (scheduleNote_tuned (nextNoteTime w) w Hc) as (s & He & Hs).
  destruct (SchedulerFacts.scheduleNote_spec random (nextNoteTime w) w)
    as ((_ & _ & _ & _ & _ & _ & _ & Hk) & _).
  unfold advance. simpl. split; [apply Hk; exact Hc|].
  exists s. split; [exact He | exact Hs].
Qed.

Lemma drain_tuned (fuel : nat) :
  forall w w', audioCtx w = true -> drain random fuel w = Some w' ->
    exists new, emitted w' = new ++ emitted w /\ Forall tuned new.
Proof.
  induction fuel as [|fuel IH]; intros w w' Hc H; simpl in H.
  - destruct (Qltb _ _); [discriminate|]. injection H as <-.
    exists []. split; [reflexivity | constructor].
  - destruct (Qltb _ _).
    + destruct (advance_tuned w Hc) as (Hc' & s & He & Hs).
      destruct (IH _ _ Hc' H) as (new & He' & Hall).
      exists (new ++ [s]). split.
      * rewrite He', He, <- app_assoc. reflexivity.
      * apply Forall_app. split; [exact Hall | constructor; [exact Hs|constructor]].
    + injection H as <-. exists []. split; [reflexivity | constructor].
Qed.

Lemma scheduler_tuned (fuel : nat) (w w' : World) :
  scheduler random fuel w = Some w' ->
  exists new, emitted w' = new ++ emitted w /\ Forall tuned new.
Proof.
  unfold scheduler.
  pose proof (SchedulerFacts.getCtx_spec w) as Hg.
  destruct (getCtx w) as [ctx w0]. cbn [fst snd] in Hg.
  destruct Hg as (_ & _ & Hc & _ & He & _).
  destruct ctx; simpl.
  - destruct (musicEnabled w0); simpl.
    + destruct (drain random fuel w0) as [w1|] eqn:Hd; [|discriminate].
      intros H. injection H as <-. simpl.
      destruct (drain_tuned fuel w0 w1 (Hc eq_refl) Hd) as (new & He1 & Hall).
      exists new. rewrite He1, He. split; [reflexivity | exact Hall].
    + intros H. injection H as <-. exists []. split; [exact He | constructor].
  - intros H. injection H as <-. exists []. split; [exact He | constructor].
Qed.

Lemma step_tuned (fuel : nat) (ev : Event) (w w' : World) :
  step random fuel ev w = Some w' ->
  exists new, emitted w' = new ++ emitted w /\ Forall tuned new.
Proof.
  destruct ev as [enable | h | dt]; simpl.
  - unfold toggleBackgroundMusic.
    pose proof (SchedulerFacts.resumeCtx_spec w) as (_ & _ & _ & He).
    destruct (resumeCtx w) as [ctx w1]. cbn [fst snd] in He. simpl.
    destruct enable.
    + destruct ctx.
      * intros H. apply scheduler_tuned in H. simpl in H.
        rewrite He in H. exact H.
      * intros H. injection H as <-. exists [].
        split; [exact He | constructor].
    + destruct (timerID w1); intros H; injection H as <-; exists [];
        (split; [exact He | constructor]).
  - destruct (existsb (Pos.eqb h) (timers w)).
    + intros H. apply scheduler_tuned in H. exact H.
    + intros H. injection H as <-. exists []. split; [reflexivity|constructor].
  - destruct (Qle_bool 0 dt); intros H; injection H as <-; exists [];
      (split; [reflexivity | constructor]).
Qed.

End InRange.

(** X2: whatever the toggles, timeouts and clock ticks, every slot
    the service fills is a rest or a pluck at one of the ten frequencies of
    [SCALE]: [scheduleNote] is never reached without an audio context, and
    the index it computes never falls outside the scale. *)
Theorem every_slot_is_rest_or_scale_note :
  forall (random : nat -> Q) (evs : list Event) (fuel : nat) (w w' : World),
    (forall n, 0 <= random n < 1) ->
    exec random fuel evs w = Some w' ->
    exists new,
      emitted w' = new ++ emitted w /\
      Forall (fun s => slot_sound s = Rest \/
                       exists f, slot_sound s = Pluck (Some f) /\ In f SCALE)
        new.
Proof.
  intros random evs fuel w w' Hrange. revert w.
  induction evs as [|ev evs IH]; intros w Hex; simpl in Hex.
  - injection Hex as <-. exists []. split; [reflexivity | constructor].
  - destruct (step random fuel ev w) as [w1|] eqn:Hstep; [|discriminate].
    destruct (step_tuned random Hrange fuel ev w w1 Hstep) as (n1 & He1 & H1).
    destruct (IH w1 Hex) as (n2 & He2 & H2).
    exists (n2 ++ n1). split.
    + rewrite He2, He1, <- app_assoc. reflexivity.
    + apply Forall_app. split; assumption.
Qed.

Lemma every_slot_witness :
  (forall n, 0 <= half n < 1) /\
  isSome (exec half 5 [Toggle true; Elapse 1; Fire 1] (initial true)) = true /\
  forall w',
    exec half 5 [Toggle true; Elapse 1; Fire 1] (initial true) = Some w' ->
    exists new,
      emitted w' = new ++ emitted (initial true) /\
      Forall (fun s => slot_sound s = Rest \/
                       exists f, slot_sound s = Pluck (Some f) /\ In f SCALE)
        new.
Proof.
  split; [exact SchedulerFacts.half_range|].
  split; [vm_compute; reflexivity|].
  intros w' H.
  exact (every_slot_is_rest_or_scale_note half
           [Toggle true; Elapse 1; Fire 1] 5 (initial true) w'
           SchedulerFacts.half_range H).
Defined.

(** *** The first note of a run *)

Lemma chain_first (a : Q) (new : list Slot) :
  forall b t, chain a new b -> hd_error (schedule new) = Some t -> t = a.
Proof.
  unfold schedule.
  induction new as [|s older IH]; intros b t Hc Hh; simpl in *.
  - discriminate.
  - destruct Hc as (_ & Hc).
    destruct older as [|s' older'].
    + simpl in *. injection Hh as <-. symmetry. exact Hc.
    + apply (IH (slot_time s) t Hc).
      destruct (rev (map slot_time (s' :: older'))) as [|x l] eqn:E.
      * apply (f_equal (@length Q)) in E.
        rewrite length_rev, length_map in E. discriminate.
      * simpl in Hh. exact Hh.
Qed.

(** X3: the first time handed to [scheduleNote] in a run is exactly
    the audio clock at [enable(true)] plus the lead-in of 0.1 s. *)
Theorem run_starts_after_lead_in :
  forall (random : nat -> Q) (w : World) (evs : list Event) (fuel : nat)
    (w' : World),
    (forall n, 0 <= random n < 1) ->
    unstarted evs = true ->
    exec random fuel (Toggle true :: evs) w = Some w' ->
    exists new,
      emitted w' = new ++ emitted w /\
      forall t, hd_error (schedule new) = Some t ->
        t = currentTime w + (1 # 10).
Proof.
  intros random w evs fuel w' Hrange Hun Hex. simpl in Hex.
  destruct (toggleBackgroundMusic random fuel true w) as [w1|] eqn:Ht;
    [|discriminate].
  assert (Hr : run_from (emitted w) (currentTime w + (1 # 10)) w1
               \/ (emitted w1 = emitted w /\ available w = false
                   /\ available w1 = false /\ musicEnabled w1 = true)).
  { unfold toggleBackgroundMusic in Ht.
    pose proof (SchedulerFacts.resumeCtx_spec w) as (Hf & Hs & Hn & He).
    destruct (resumeCtx w) as [ctx w0]. cbn [fst snd] in *. simpl in Ht.
    destruct Hs as (_ & _ & _ & _ & Hct & _ & Hav & _).
    destruct ctx.
    - left. rewrite <- Hct.
      eapply SchedulerFacts.scheduler_run; [exact Hrange | exact Ht |].
      exists []. simpl. auto.
    - right. injection Ht as <-. unfold available in *. simpl.
      rewrite Hav. auto. }
  destruct Hr as [Hr | (He & Hav & Hav1 & Hen)].
  - destruct (SchedulerFacts.exec_run random Hrange (emitted w) _ fuel evs
                w1 w' Hun Hex Hr) as (new & He & Hc).
    exists new. split; [exact He|].
    intros t Hh. exact (chain_first _ new _ t Hc Hh).
  - assert (Hq : forall evs w1 w',
              available w1 = false -> exec random fuel evs w1 = Some w' ->
              emitted w' = emitted w1).
    { clear. intros evs. induction evs as [|ev evs IH]; intros w1 w' Hav Hex;
        simpl in Hex.
      - injection Hex as <-. reflexivity.
      - destruct (step random fuel ev w1) as [w2|] eqn:Hstep; [|discriminate].
        assert (H2 : emitted w2 = emitted w1 /\ available w2 = false).
        { destruct ev as [enable | h | dt]; simpl in Hstep.
          - unfold toggleBackgroundMusic in Hstep.
            pose proof (SchedulerFacts.resumeCtx_spec w1)
              as (Hf & Hs & _ & He).
            destruct (resumeCtx w1) as [ctx w0]. cbn [fst snd] in *.
            destruct Hs as (_ & _ & _ & _ & _ & _ & Hav0 & _).
            rewrite Hav in Hf. subst ctx. simpl in Hstep.
            destruct enable; simpl in Hstep.
            + injection Hstep as <-. unfold available in *. simpl.
              rewrite Hav0. auto.
            + destruct (timerID w0); injection Hstep as <-;
                unfold available in *; simpl; rewrite Hav0; auto.
          - destruct (existsb (Pos.eqb h) (timers w1)).
            + apply SchedulerFacts.scheduler_spec in Hstep.
              destruct Hstep as (_ & _ & Ha' & Hif).
              unfold available in *. simpl in *. rewrite Hav in Hif.
              simpl in Hif. destruct Hif as (_ & _ & He & _).
              rewrite Ha'. auto.
            + injection Hstep as <-. auto.
          - destruct (Qle_bool 0 dt); injection Hstep as <-; auto. }
        destruct H2 as (He2 & Hav2).
        rewrite (IH w2 w' Hav2 Hex). exact He2. }
    exists []. split.
    + simpl. rewrite (Hq evs w1 w' Hav1 Hex). exact He.
    + intros t Hh. discriminate.
Qed.

Lemma run_starts_witness :
  (forall n, 0 <= half n < 1) /\
  unstarted [Elapse 1; Fire 1] = true /\
  isSome (exec half 5 (Toggle true :: [Elapse 1; Fire 1])
            (set_currentTime 3 (initial true))) = true /\
  forall w',
    exec half 5 (Toggle true :: [Elapse 1; Fire 1])
      (set_currentTime 3 (initial true)) = Some w' ->
    exists new,
      emitted w' = new ++ emitted (set_currentTime 3 (initial true)) /\
      forall t, hd_error (schedule new) = Some t ->
        t = currentTime (set_currentTime 3 (initial true)) + (1 # 10).
Proof.
  split; [exact SchedulerFacts.half_range|]. split; [reflexivity|].
  split; [vm_compute; reflexivity|].
  intros w' H.
  exact (run_starts_after_lead_in half (set_currentTime 3 (initial true))
           [Elapse 1; Fire 1] 5 w' SchedulerFacts.half_range eq_refl H).
Defined.

End SchedulerMore.

(** ** More facts about the tone synthesizer *)

Module SynthMore.

Import Synth SynthRuns.

Section WithSubsystem.

Variable faulty : nat -> Call -> bool.

Lemma quiet_ret {A : Type} (x : A) : quiet (ret x).
Proof. intros a. split; reflexivity. Qed.

Lemma quiet_get {A : Type} (f : Audio -> A) : quiet (get f).
Proof. intros a. split; reflexivity. Qed.

Lemma quiet_bind {A B : Type} (m : M A) (k : A -> M B) :
  quiet m -> (forall x, quiet (k x)) -> quiet (bind m k).
Proof.
  intros Hm Hk a. unfold bind. specialize (Hm a).
  destruct (m a) as [[x|] a1]; simpl in *.
  - destruct (Hk x a1) as (H1 & H2). destruct Hm as (H3 & H4).
    split; congruence.
  - exact Hm.
Qed.

Lemma quiet_call (c : Call) : isNew c = false -> quiet (call faulty c).
Proof.
  intros Hc a. unfold call.
  destruct (faulty (attempts a) c); simpl; [split; reflexivity|].
  unfold contexts. simpl. rewrite Hc. split; reflexivity.
Qed.

Lemma quiet_at (offset : Q) (c : Q -> Call) :
  (forall t, isNew (c t) = false) -> quiet (at_ faulty offset c).
Proof.
  intros Hc. unfold at_. apply quiet_bind; [apply quiet_get|].
  intros t. apply quiet_call. apply Hc.
Qed.

Lemma quiet_fillNoise (n : Q) : quiet (fillNoise n).
Proof. intros a. split; reflexivity. Qed.

Lemma quiet_if {A : Type} (b : bool) (m1 m2 : M A) :
  quiet m1 -> quiet m2 -> quiet (if b then m1 else m2).
Proof. destruct b; auto. Qed.

Lemma quiet_forEach (notes : list Q) :
  forall now i, quiet (forEach faulty now i notes).
Proof.
  induction notes as [|freq notes IH]; intros now i; simpl.
  - apply quiet_ret.
  - repeat (apply quiet_bind;
            [apply quiet_call; reflexivity | intros _]).
    apply IH.
Qed.

Lemma quiet_keeps {A : Type} (m : M A) : quiet m -> keeps m.
Proof.
  intros Hq a Ha. destruct (Hq a) as (H1 & H2).
  unfold single in *. rewrite H1, H2. exact Ha.
Qed.

Lemma keeps_bind {A B : Type} (m : M A) (k : A -> M B) :
  keeps m -> (forall x, keeps (k x)) -> keeps (bind m k).
Proof.
  intros Hm Hk a Ha. unfold bind. specialize (Hm a Ha).
  destruct (m a) as [[x|] a1]; simpl in *.
  - apply Hk. exact Hm.
  - exact Hm.
Qed.

Lemma keeps_try (m : M unit) : keeps m -> keeps (try_ignore m).
Proof.
  intros Hm a Ha. unfold try_ignore. specialize (Hm a Ha).
  destruct (m a) as [[x|] a1]; exact Hm.
Qed.

(** [getCtx] constructs a context only while the variable is null, and
    sets the variable exactly when the construction went through. *)
Lemma keeps_getCtx : keeps (getCtx faulty).
Proof.
  intros a Ha. unfold getCtx, single, contexts in *.
  destruct (audioCtx a) eqn:Hc; simpl; [rewrite Hc; exact Ha|].
  destruct (audioClass a); simpl; [|rewrite Hc; exact Ha].
  unfold call. destruct (faulty (attempts a) NewAudioContext); simpl.
  - rewrite Hc. exact Ha.
  - rewrite Ha. reflexivity.
Qed.

Lemma keeps_resumeCtx : keeps (resumeCtx faulty).
Proof.
  unfold resumeCtx. apply keeps_bind; [apply keeps_getCtx|].
  intros ctx. apply quiet_keeps.
  apply quiet_bind; [apply quiet_get|]. intros s.
  apply quiet_bind; [|intros _; apply quiet_ret].
  apply quiet_if; [apply quiet_call; reflexivity | apply quiet_ret].
Qed.

Ltac quiet_steps :=
  repeat first
    [ apply quiet_ret
    | apply quiet_forEach
    | apply quiet_fillNoise
    | apply quiet_get
    | apply quiet_call; reflexivity
    | apply quiet_at; intros; reflexivity
    | apply quiet_bind; [|intros ?] ].

Lemma keeps_playEffect (kind : Effect) : keeps (playEffect faulty kind).
Proof.
  destruct kind; simpl;
    unfold playClick, playHover, playCapture, playCameraStart,
      playCameraStop, playSuccess;
    apply keeps_try; (apply keeps_bind; [apply keeps_resumeCtx|]);
    intros ctx; apply quiet_keeps; apply quiet_if; quiet_steps.
Qed.

End WithSubsystem.

(** X4: the audio context is a singleton.  Whatever effects are
    played, in whatever order, and whichever calls into the audio subsystem
    fail, at most one [AudioContext] is ever constructed on a page, and the
    module variable is set exactly when one was. *)
Theorem one_audio_context_per_page :
  forall (faulty : nat -> Call -> bool) (kinds : list Effect)
    (hasAudio : bool),
    (contexts (playAll faulty kinds (page hasAudio)) <= 1)%nat /\
    (audioCtx (playAll faulty kinds (page hasAudio)) = true <->
     contexts (playAll faulty kinds (page hasAudio)) = 1%nat).
Proof.
  intros faulty kinds hasAudio.
  assert (H : single (playAll faulty kinds (page hasAudio))).
  { unfold playAll.
    assert (H0 : single (page hasAudio)) by reflexivity.
    revert H0. generalize (page hasAudio) as a.
    induction kinds as [|kind kinds IH]; intros a Ha; simpl; [exact Ha|].
    apply IH. apply keeps_playEffect. exact Ha. }
  unfold single in H.
  destruct (audioCtx (playAll faulty kinds (page hasAudio))); rewrite H.
  - split; [lia | split; reflexivity].
  - split; [lia | split; discriminate].
Qed.

Example context_built_on_second_try :
  contexts (playAll (fun n _ => Nat.eqb n 0) [click; hover; click] (page true))
  = 1%nat.
Proof. reflexivity. Qed.

Lemma since_app (a a' : Audio) (new : list Call) :
  calls a' = new ++ calls a -> since a a' = rev new.
Proof.
  intros H. unfold since. rewrite H, length_app.
  replace (length new + length (calls a) - length (calls a))%nat
    with (length new + 0)%nat by lia.
  rewrite firstn_app_2. simpl. rewrite app_nil_r. reflexivity.
Qed.

Ltac calls_over l base :=
  lazymatch l with
  | base => constr:(@nil Call)
  | ?c :: ?r => let r' := calls_over r base in constr:(c :: r')
  end.

Ltac expose_since :=
  match goal with
  | H : context [since ?a ?a'] |- _ =>
      let l := eval cbn in (calls a') in
      let base := eval cbn in (calls a) in
      let n := calls_over l base in
      rewrite (since_app a a' n) in * by reflexivity
  end.

(** X5: when no call fails, every oscillator an effect starts is
    also given a stop time, later than its start: no effect leaves an
    oscillator sounding. *)
Theorem every_oscillator_is_stopped :
  forall (kind : Effect) (a : Audio) (i : nat) (t : option Q),
    In (Start (Osc i) t)
       (since a (snd (playEffect (fun _ _ => false) kind a))) ->
    exists t',
      In (Stop (Osc i) t')
         (since a (snd (playEffect (fun _ _ => false) kind a))) /\
      startTime a t < t'.
Proof.
  intros kind a i t H.
  destruct a as [ctx cls sus now rate cs att smp].
  destruct kind, ctx, cls, sus;
    expose_since; cbn [rev app In] in H |- *;
    repeat (destruct H as [H | H]; [try discriminate|]);
    try contradiction;
    injection H as <- <-; eexists;
    (split; [repeat first [left; reflexivity | right] | cbn; lra]).
Qed.

Lemma every_oscillator_witness :
  In (Start (Osc 0) None)
     (since (page true) (snd (playEffect (fun _ _ => false) click (page true))))
  /\
  exists t',
    In (Stop (Osc 0) t')
       (since (page true)
          (snd (playEffect (fun _ _ => false) click (page true)))) /\
    startTime (page true) None < t'.
Proof.
  assert (H : In (Start (Osc 0) None)
                (since (page true)
                   (snd (playEffect (fun _ _ => false) click (page true))))).
  { cbv. do 11 right. left. reflexivity. }
  split; [exact H|].
  exact (every_oscillator_is_stopped click (page true) 0%nat None H).
Defined.

Example click_starts_and_stops_its_oscillator :
  since (page true) (snd (playClick (fun _ _ => false) (page true)))
  = [ NewAudioContext; Resume; CreateOscillator; CreateGain;
      Connect (Osc 0) (Gain 0); Connect (Gain 0) Destination;
      SetType (Osc 0) sine;
      SetValueAtTime (Osc 0) frequency 600 (0 + 0);
      ExponentialRampToValueAtTime (Osc 0) frequency 300 (0 + (5 # 100));
      SetValueAtTime (Gain 0) gain (5 # 100) (0 + 0);
      ExponentialRampToValueAtTime (Gain 0) gain (1 # 1000) (0 + (5 # 100));
      Start (Osc 0) None; Stop (Osc 0) (0 + (5 # 100)) ].
Proof. reflexivity. Qed.

End SynthMore.

(** ** Facts about the other handlers of the form *)

Module ControlsFacts.

Import Form Controls.

Local Open Scope string_scope.

(** *** Stopping and restarting the camera *)

Lemma stopCamera_again (f : Form) : stopCamera (stopCamera f) = stopCamera f.
Proof.
  assert (Hview : forall g, streamRef g = None ->
            stopCamera (setFocusPoint None (setIsCameraOpen false g))
            = setFocusPoint None (setIsCameraOpen false g)).
  { intros g Hg. unfold stopCamera, setFocusPoint, setIsCameraOpen.
    destruct (mounted g) eqn:Hm;
      repeat (cbn [mounted streamRef set_isCameraOpen set_focusPoint];
              rewrite ?Hm, ?Hg);
      reflexivity. }
  unfold stopCamera at 2 3.
  destruct (streamRef f) as [s|] eqn:Hs; apply Hview; [reflexivity | exact Hs].
Qed.

Lemma stopCamera_effect (f : Form) :
  mounted f = true ->
  isCameraOpen (stopCamera f) = false /\
  streamRef (stopCamera f) = None /\
  focusPoint (stopCamera f) = None /\
  mounted (stopCamera f) = true /\
  live (stopCamera f)
  = live f ∖ list_to_set (map track_id (default [] (streamRef f))) /\
  sounds (stopCamera f) = sounds f /\
  selectedFile (stopCamera f) = selectedFile f.
Proof.
  intros Hm. unfold stopCamera.
  destruct (streamRef f) as [s|] eqn:Hs.
  - destruct (FormFacts.stopTracks_fields s f)
      as (_ & H2 & _ & _ & _ & H6 & H7 & H8).
    rewrite FormFacts.view_closed by (simpl; congruence).
    simpl. rewrite H2, H6, H7, H8. repeat split; assumption || reflexivity.
  - rewrite FormFacts.view_closed by exact Hm.
    simpl. rewrite Hs, difference_empty_L.
    repeat split; assumption || reflexivity.
Qed.

(** X6: the cancel button releases the camera: the view closes,
    the stream reference and the focus indicator are dropped, and exactly
    the tracks of the held stream stop being live.  Pressing it again, or
    with nothing held, stops nothing more: [stopCamera] is idempotent. *)
Theorem cancel_releases_the_camera :
  forall (f : Form),
    mounted f = true ->
    isCameraOpen (handleStopCamera f) = false /\
    streamRef (handleStopCamera f) = None /\
    focusPoint (handleStopCamera f) = None /\
    live (handleStopCamera f)
    = live f ∖ list_to_set (map track_id (default [] (streamRef f))) /\
    stopCamera (handleStopCamera f) = handleStopCamera f /\
    live (handleStopCamera (handleStopCamera f)) = live (handleStopCamera f).
Proof.
  intros f Hm. unfold handleStopCamera.
  destruct (stopCamera_effect (play Synth.cameraStop f) Hm)
    as (H1 & H2 & H3 & H4 & H5 & _).
  simpl in H5.
  split; [exact H1|]. split; [exact H2|]. split; [exact H3|].
  split; [exact H5|]. split; [apply stopCamera_again|].
  destruct (stopCamera_effect
              (play Synth.cameraStop (stopCamera (play Synth.cameraStop f))) H4)
    as (_ & _ & _ & _ & H5' & _).
  simpl in H5'. rewrite H5', H2. simpl. apply difference_empty_L.
Qed.

Lemma cancel_releases_witness :
  mounted opened = true /\
  isCameraOpen (handleStopCamera opened) = false /\
  streamRef (handleStopCamera opened) = None.
Proof.
  split; [reflexivity|].
  pose proof (cancel_releases_the_camera opened eq_refl) as (H1 & H2 & _).
  split; [exact H1 | exact H2].
Defined.

Lemma acquired_fields (s : MediaStream) (g : Form) :
  mounted g = true ->
  streamRef (snd (acquired s g)) = Some s /\
  isCameraOpen (snd (acquired s g)) = true /\
  live (snd (acquired s g)) = live g /\
  alerts (snd (acquired s g)) = alerts g /\
  sounds (snd (acquired s g)) = Synth.cameraStart :: sounds g /\
  mounted (snd (acquired s g)) = true.
Proof.
  intros Hm. unfold acquired, setIsCameraOpen. simpl. rewrite Hm.
  destruct s as [|t s']; [|destruct (focusable t)]; simpl;
    rewrite ?Hm; repeat split; reflexivity.
Qed.

(** X7: starting the camera while a stream is still held first stops
    every track of the old stream and drops it; once the new stream is
    granted it is the one held, the view is open, and its tracks are the
    live ones.  (Track ids of different streams differ.) *)
Theorem restart_swaps_the_streams :
  forall (f : Form) (old s : MediaStream),
    mounted f = true -> mediaDevices f = true ->
    streamRef f = Some old ->
    (forall t t', In t old -> In t' s -> track_id t <> track_id t') ->
    streamRef (snd (startCamera f)) = None /\
    (forall t, In t old -> track_id t ∉ live (snd (startCamera f))) /\
    fst (startCameraWith [Elapsed; Stream s] f) <> Delay /\
    streamRef (snd (startCameraWith [Elapsed; Stream s] f)) = Some s /\
    isCameraOpen (snd (startCameraWith [Elapsed; Stream s] f)) = true /\
    (forall t, In t s ->
       track_id t ∈ live (snd (startCameraWith [Elapsed; Stream s] f))) /\
    (forall t, In t old ->
       track_id t ∉ live (snd (startCameraWith [Elapsed; Stream s] f))).
Proof.
  intros f old s Hm Hd Hs Hfresh.
  assert (Hstart : startCamera f
                   = (Delay, set_streamRef None
                               (stopTracks old (play Synth.click f)))).
  { unfold startCamera. simpl. rewrite Hs. reflexivity. }
  destruct (FormFacts.stopTracks_fields old (play Synth.click f))
    as (_ & Hm1 & Hd1 & _ & _ & _ & _ & Hl1).
  simpl in Hm1, Hd1, Hl1.
  assert (Hold : forall t, In t old ->
            track_id t ∉ live (stopTracks old (play Synth.click f))).
  { intros t Ht. rewrite Hl1, elem_of_difference, elem_of_list_to_set.
    intros (_ & Hn). apply Hn, list_elem_of_In, in_map. exact Ht. }
  unfold startCameraWith. rewrite Hstart. simpl. unfold answer. simpl.
  rewrite Hd1, Hd. simpl.
  set (g := grant s (set_streamRef None (stopTracks old (play Synth.click f)))).
  assert (Hmg : mounted g = true) by (unfold g; simpl; congruence).
  destruct (acquired_fields s g Hmg) as (A1 & A2 & A3 & _).
  split; [reflexivity|]. split; [exact Hold|].
  split.
  { unfold acquired. destruct s as [|t0 s']; [|destruct (focusable t0)];
      simpl; discriminate. }
  split; [exact A1|]. split; [exact A2|]. rewrite A3. unfold g. simpl. split.
  - intros t Ht. apply elem_of_union_r, elem_of_list_to_set.
    apply list_elem_of_In, in_map. exact Ht.
  - intros t Ht. rewrite elem_of_union, elem_of_list_to_set.
    intros [Hin | Hin]; [exact (Hold t Ht Hin)|].
    apply list_elem_of_In, in_map_iff in Hin.
    destruct Hin as (t' & Hid & Ht'). apply (Hfresh t t' Ht Ht').
    symmetry. exact Hid.
Qed.

Lemma restart_swaps_witness :
  mounted opened = true /\ mediaDevices opened = true /\
  streamRef opened = Some frontCamera /\
  (forall t t', In t frontCamera -> In t' rearCamera ->
     track_id t <> track_id t') /\
  streamRef (snd (startCameraWith [Elapsed; Stream rearCamera] opened))
  = Some rearCamera.
Proof.
  assert (H : forall t t', In t frontCamera -> In t' rearCamera ->
                track_id t <> track_id t').
  { intros t t' [<- | []] [<- | []]. discriminate. }
  split; [reflexivity|]. split; [reflexivity|]. split; [reflexivity|].
  split; [exact H|].
  exact (proj1 (proj2 (proj2 (proj2
    (restart_swaps_the_streams opened frontCamera rearCamera
       eq_refl eq_refl eq_refl H))))).
Defined.

(** X8: when the request for the front camera is rejected and the
    unconstrained request is granted, the camera opens exactly as if the
    first request had been granted: same state, the start sound, and no
    alert. *)
Theorem fallback_opens_like_first_request :
  forall (f : Form) (s : MediaStream) (e : JsError),
    mounted f = true -> mediaDevices f = true ->
    startCameraWith [Elapsed; Failure e; Stream s] f
    = startCameraWith [Elapsed; Stream s] f /\
    streamRef (snd (startCameraWith [Elapsed; Failure e; Stream s] f))
    = Some s /\
    isCameraOpen (snd (startCameraWith [Elapsed; Failure e; Stream s] f))
    = true /\
    alerts (snd (startCameraWith [Elapsed; Failure e; Stream s] f))
    = alerts f /\
    sounds (snd (startCameraWith [Elapsed; Failure e; Stream s] f))
    = Synth.cameraStart :: Synth.click :: sounds f.
Proof.
  intros f s e Hm Hd.
  destruct (FormFacts.startCamera_fields f) as (Hk & _ & Ha & Hm' & Hd').
  assert (Hsnd : sounds (snd (startCamera f)) = Synth.click :: sounds f).
  { unfold startCamera. simpl. destruct (streamRef f) as [old|]; simpl;
      [|reflexivity].
    destruct (FormFacts.stopTracks_fields old (play Synth.click f))
      as (_ & _ & _ & _ & _ & _ & H7 & _). exact H7. }
  unfold startCameraWith. simpl. unfold answer.
  destruct (startCamera f) as [k g]. simpl in *. subst k. simpl.
  rewrite Hd', Hd. simpl.
  assert (Hmg : mounted (grant s g) = true) by (simpl; congruence).
  destruct (acquired_fields s (grant s g) Hmg) as (A1 & A2 & _ & A4 & A5 & _).
  split; [reflexivity|]. split; [exact A1|]. split; [exact A2|].
  split; [rewrite A4; exact Ha|]. rewrite A5. simpl. rewrite Hsnd.
  reflexivity.
Qed.

Lemma fallback_opens_witness :
  mounted fresh = true /\ mediaDevices fresh = true /\
  startCameraWith [Elapsed; Failure denied; Stream frontCamera] fresh
  = startCameraWith [Elapsed; Stream frontCamera] fresh.
Proof.
  split; [reflexivity|]. split; [reflexivity|].
  exact (proj1 (fallback_opens_like_first_request fresh frontCamera denied
                  eq_refl eq_refl)).
Defined.

Lemma ignored_after_finish (replies : list Reply) :
  forall g, fold_left answer replies (Finished, g) = (Finished, g).
Proof.
  induction replies as [|r replies IH]; intros g; simpl; [reflexivity|].
  unfold answer at 2. simpl. destruct r; apply IH.
Qed.

(** X9: on a browser without [getUserMedia], [startCamera] shows the
    unsupported-API alert and ends there: no request is made, so whatever
    arrives later changes nothing; the view and the stream reference stay
    as the cleanup left them. *)
Theorem unsupported_browser_only_alerts :
  forall (f : Form) (replies : list Reply),
    mediaDevices f = false ->
    fst (startCameraWith (Elapsed :: replies) f) = Finished /\
    snd (startCameraWith (Elapsed :: replies) f)
    = alert "Camera API is not supported in this browser."
        (snd (startCamera f)) /\
    streamRef (snd (startCameraWith (Elapsed :: replies) f)) = None /\
    isCameraOpen (snd (startCameraWith (Elapsed :: replies) f))
    = isCameraOpen f.
Proof.
  intros f replies Hd.
  destruct (FormFacts.startCamera_fields f) as (Hk & Hs & _ & _ & Hd').
  assert (Ho : isCameraOpen (snd (startCamera f)) = isCameraOpen f).
  { unfold startCamera. simpl. destruct (streamRef f) as [old|]; simpl;
      [|reflexivity].
    destruct (FormFacts.stopTracks_fields old (play Synth.click f))
      as (_ & _ & _ & H4 & _). exact H4. }
  unfold startCameraWith.
  destruct (startCamera f) as [k g]. simpl in Hk, Hs, Hd', Ho. subst k.
  cbn [fold_left].
  change (answer (Delay, g) Elapsed) with (resume Delay Elapsed g).
  cbn [resume]. rewrite Hd', Hd. cbn [negb]. rewrite !ignored_after_finish.
  cbn [fst snd]. repeat split; simpl; first [assumption | reflexivity].
Qed.

Lemma unsupported_browser_witness :
  mediaDevices oldBrowser = false /\
  fst (startCameraWith [Elapsed; Stream frontCamera] oldBrowser) = Finished /\
  streamRef (snd (startCameraWith [Elapsed; Stream frontCamera] oldBrowser))
  = None.
Proof.
  split; [reflexivity|].
  pose proof (unsupported_browser_only_alerts oldBrowser
                [Stream frontCamera] eq_refl) as (H1 & _ & H3 & _).
  split; [exact H1 | exact H3].
Defined.

(** *** Tap to focus *)

Lemma click_cases (focusMode : Track -> list string) (e : MouseEvent)
  (f : Form) (id : positive) (c : Constraints) :
  fst (handleVideoClick focusMode e f) = Some (id, c) ->
  mounted f = true /\ isCameraOpen f = true /\
  exists track rest,
    streamRef f = Some (track :: rest) /\ id = track_id track /\
    focusable track = true /\
    (listed "continuous" (focusMode track) = true /\ c = ContinuousFocus
     \/ listed "continuous" (focusMode track) = false /\
        listed "manual" (focusMode track) = true /\
        c = ManualFocus
              ((clientX e - rect_left (currentTarget e))
               / rect_width (currentTarget e))
              ((clientY e - rect_top (currentTarget e))
               / rect_height (currentTarget e))).
Proof.
  unfold handleVideoClick, videoRef.
  destruct (mounted f) eqn:Hm; [|discriminate].
  destruct (isCameraOpen f) eqn:Ho; [|discriminate]. simpl.
  destruct (streamRef f) as [[|track rest]|] eqn:Hs; try discriminate.
  destruct (focusable track) eqn:Hf; [|discriminate]. simpl.
  destruct (listed "continuous" (focusMode track)) eqn:Hc.
  - intros H. injection H as <- <-.
    split; [reflexivity|]. split; [reflexivity|].
    exists track, rest. do 3 (split; [first [reflexivity | assumption]|]).
    left. split; first [reflexivity | assumption].
  - destruct (listed "manual" (focusMode track)) eqn:Hman; [|discriminate].
    intros H. injection H as <- <-.
    split; [reflexivity|]. split; [reflexivity|].
    exists track, rest. do 3 (split; [first [reflexivity | assumption]|]).
    right. split; [assumption|]. split; first [reflexivity | assumption].
Qed.

(** X10: a focus request is only ever made with the camera view
    open, on the first track of the held stream, and only if that track
    reports focus modes; manual focus is asked for only when continuous
    focus is not among them. *)
Theorem focus_request_targets_first_track :
  forall (focusMode : Track -> list string) (e : MouseEvent) (f : Form)
    (id : positive) (c : Constraints),
    fst (handleVideoClick focusMode e f) = Some (id, c) ->
    mounted f = true /\ isCameraOpen f = true /\
    exists track rest,
      streamRef f = Some (track :: rest) /\ id = track_id track /\
      focusable track = true /\
      match c with
      | ContinuousFocus => listed "continuous" (focusMode track) = true
      | ManualFocus _ _ =>
          listed "continuous" (focusMode track) = false /\
          listed "manual" (focusMode track) = true
      end.
Proof.
  intros focusMode e f id c H.
  destruct (click_cases focusMode e f id c H)
    as (Hm & Ho & track & rest & Hs & Hid & Hf & Hc).
  split; [exact Hm|]. split; [exact Ho|].
  exists track, rest. repeat split; try assumption.
  destruct Hc as [(Hc & ->) | (Hc & Hman & ->)]; auto.
Qed.

Lemma focus_request_witness :
  fst (handleVideoClick (fun _ => ["manual"; "continuous"])
         {| clientX := 30; clientY := 40;
            currentTarget := {| rect_left := 10; rect_top := 20;
                                rect_width := 200; rect_height := 100 |} |}
         (snd (startCameraWith [Elapsed; Stream rearCamera] fresh)))
  = Some (7%positive, ContinuousFocus) /\
  isCameraOpen (snd (startCameraWith [Elapsed; Stream rearCamera] fresh))
  = true.
Proof.
  split; [reflexivity|].
  exact (proj1 (proj2
    (focus_request_targets_first_track (fun _ => ["manual"; "continuous"])
       {| clientX := 30; clientY := 40;
          currentTarget := {| rect_left := 10; rect_top := 20;
                              rect_width := 200; rect_height := 100 |} |}
       (snd (startCameraWith [Elapsed; Stream rearCamera] fresh))
       7%positive ContinuousFocus eq_refl))).
Defined.

(** X11: for a click inside the preview, the point of interest of
    a manual focus request is the click position relative to the preview,
    scaled into [0, 1] on both axes. *)
Theorem manual_focus_point_is_normalized :
  forall (focusMode : Track -> list string) (e : MouseEvent) (f : Form)
    (id : positive) (x y : Q),
    0 < rect_width (currentTarget e) ->
    0 < rect_height (currentTarget e) ->
    rect_left (currentTarget e) <= clientX e
      <= rect_left (currentTarget e) + rect_width (currentTarget e) ->
    rect_top (currentTarget e) <= clientY e
      <= rect_top (currentTarget e) + rect_height (currentTarget e) ->
    fst (handleVideoClick focusMode e f) = Some (id, ManualFocus x y) ->
    0 <= x <= 1 /\ 0 <= y <= 1 /\
    x * rect_width (currentTarget e) == clientX e - rect_left (currentTarget e)
    /\
    y * rect_height (currentTarget e) == clientY e - rect_top (currentTarget e).
Proof.
  intros focusMode e f id x y Hw Hh (Hx1 & Hx2) (Hy1 & Hy2) H.
  destruct (click_cases focusMode e f id _ H)
    as (_ & _ & track & rest & _ & _ & _ & Hc).
  destruct Hc as [(_ & Hc) | (_ & _ & Hc)]; [discriminate|].
  injection Hc as -> ->.
  set (w := rect_width (currentTarget e)) in *.
  set (h := rect_height (currentTarget e)) in *.
  repeat split.
  - apply Qle_shift_div_l; [exact Hw | lra].
  - apply Qle_shift_div_r; [exact Hw | lra].
  - apply Qle_shift_div_l; [exact Hh | lra].
  - apply Qle_shift_div_r; [exact Hh | lra].
  - field. lra.
  - field. lra.
Qed.

Lemma manual_focus_witness :
  0 < 200 /\ 0 < 100 /\ (10 <= 30 <= 10 + 200) /\ (20 <= 40 <= 20 + 100) /\
  fst (handleVideoClick (fun _ => ["manual"])
         {| clientX := 30; clientY := 40;
            currentTarget := {| rect_left := 10; rect_top := 20;
                                rect_width := 200; rect_height := 100 |} |}
         (snd (startCameraWith [Elapsed; Stream rearCamera] fresh)))
  = Some (7%positive, ManualFocus ((30 - 10) / 200) ((40 - 20) / 100)) /\
  0 <= (30 - 10) / 200 <= 1.
Proof.
  assert (H1 : 0 < 200) by reflexivity.
  assert (H2 : 0 < 100) by reflexivity.
  assert (H3 : 10 <= 30 <= 10 + 200) by (split; discriminate).
  assert (H4 : 20 <= 40 <= 20 + 100) by (split; discriminate).
  split; [exact H1|]. split; [exact H2|]. split; [exact H3|].
  split; [exact H4|]. split; [reflexivity|].
  exact (proj1
    (manual_focus_point_is_normalized (fun _ => ["manual"])
       {| clientX := 30; clientY := 40;
          currentTarget := {| rect_left := 10; rect_top := 20;
                              rect_width := 200; rect_height := 100 |} |}
       (snd (startCameraWith [Elapsed; Stream rearCamera] fresh))
       7%positive ((30 - 10) / 200) ((40 - 20) / 100)
       H1 H2 H3 H4 eq_refl)).
Defined.

(** X12: tapping the preview never touches the session: the held
    stream, the live tracks, the view, the selected file and the alerts are
    as before, and with the view closed or no stream held the handler does
    nothing at all.  With the camera open it shows the indicator at the
    click; the timeout hides it in place, and if the camera was stopped in
    between, the indicator stays absent. *)
Theorem tap_leaves_the_session :
  forall (focusMode : Track -> list string) (e : MouseEvent) (f : Form),
    (live (snd (handleVideoClick focusMode e f)) = live f /\
     streamRef (snd (handleVideoClick focusMode e f)) = streamRef f /\
     isCameraOpen (snd (handleVideoClick focusMode e f)) = isCameraOpen f /\
     selectedFile (snd (handleVideoClick focusMode e f)) = selectedFile f /\
     alerts (snd (handleVideoClick focusMode e f)) = alerts f) /\
    (isCameraOpen f = false \/ streamRef f = None ->
     handleVideoClick focusMode e f = (None, f)) /\
    (mounted f = true /\ isCameraOpen f = true /\ is_Some (streamRef f) ->
     focusPoint (snd (handleVideoClick focusMode e f))
     = Some {| focus_x := clientX e - rect_left (currentTarget e);
               focus_y := clientY e - rect_top (currentTarget e);
               visible := true |} /\
     sounds (snd (handleVideoClick focusMode e f)) = Synth.hover :: sounds f /\
     focusPoint (hideFocus (snd (handleVideoClick focusMode e f)))
     = Some {| focus_x := clientX e - rect_left (currentTarget e);
               focus_y := clientY e - rect_top (currentTarget e);
               visible := false |} /\
     focusPoint
       (hideFocus (stopCamera (snd (handleVideoClick focusMode e f))))
     = None).
Proof.
  intros focusMode e f.
  assert (Hshape : handleVideoClick focusMode e f = (None, f) \/
            mounted f = true /\
            exists c,
              handleVideoClick focusMode e f
              = (c, play Synth.hover
                      (set_focusPoint
                         (Some {| focus_x := clientX e
                                             - rect_left (currentTarget e);
                                  focus_y := clientY e
                                             - rect_top (currentTarget e);
                                  visible := true |}) f))).
  { unfold handleVideoClick, videoRef, setFocusPoint.
    destruct (mounted f) eqn:Hm; [|left; reflexivity].
    destruct (isCameraOpen f); [|left; reflexivity]. simpl.
    destruct (streamRef f) as [[|track rest]|]; [| |left; reflexivity];
      right; (split; [reflexivity|]).
    - eexists. reflexivity.
    - destruct (focusable track); simpl; [|eexists; reflexivity].
      destruct (listed "continuous" (focusMode track));
        [eexists; reflexivity|].
      destruct (listed "manual" (focusMode track)); eexists; reflexivity. }
  split; [|split].
  - destruct Hshape as [-> | (_ & c & ->)]; simpl; repeat split; reflexivity.
  - intros Hclosed. unfold handleVideoClick, videoRef.
    destruct Hclosed as [Ho | Hs].
    + rewrite Ho, andb_false_r. reflexivity.
    + rewrite Hs. destruct (mounted f && isCameraOpen f); reflexivity.
  - intros (Hm & Ho & (s & Hs)).
    clear Hshape.
    assert (Hopen : exists c,
              handleVideoClick focusMode e f
              = (c, play Synth.hover
                      (set_focusPoint
                         (Some {| focus_x := clientX e
                                             - rect_left (currentTarget e);
                                  focus_y := clientY e
                                             - rect_top (currentTarget e);
                                  visible := true |}) f))).
    { unfold handleVideoClick, videoRef, setFocusPoint.
      rewrite Hm, Ho, Hs. simpl.
      destruct s as [|track rest]; [eexists; reflexivity|].
      destruct (focusable track); simpl; [|eexists; reflexivity].
      destruct (listed "continuous" (focusMode track));
        [eexists; reflexivity|].
      destruct (listed "manual" (focusMode track)); eexists; reflexivity. }
    destruct Hopen as (c & Hc).
    rewrite Hc. cbn [snd]. split; [reflexivity|]. split; [reflexivity|].
    split.
    + unfold hideFocus, setFocusPoint. simpl. rewrite Hm. reflexivity.
    + match goal with
      | |- context [stopCamera ?g] =>
          destruct (stopCamera_effect g) as (_ & _ & H3 & H4 & _);
          [exact Hm|]
      end.
      unfold hideFocus, setFocusPoint. rewrite H4.
      cbn [focusPoint set_focusPoint]. rewrite H3. reflexivity.
Qed.

(** *** Choosing, taking and clearing the picture *)

Lemma stopTracks_live (s : MediaStream) :
  forall f,
    stopTracks s f = set_live (live f ∖ list_to_set (map track_id s)) f.
Proof.
  induction s as [|t s IH]; intros f.
  - destruct f. unfold stopTracks, set_live. simpl.
    rewrite difference_empty_L. reflexivity.
  - change (stopTracks (t :: s) f) with (stopTracks s (stop t f)).
    rewrite IH. unfold stop, set_live. simpl.
    rewrite difference_difference_l_L. reflexivity.
Qed.

(** X13: while a chosen or captured image is being processed the
    submit button is disabled; when the processing timeout has run, the
    preview shows the selected file and the button is enabled again unless
    a request is in flight.  Choosing no file changes nothing. *)
Theorem image_processing_gates_submit :
  forall (p : Picker) (file : File) (rest : list File),
    mounted (form p) = true ->
    selectedFile (form (snd (handleFileChange (file :: rest) p))) = Some file /\
    submitDisabled (form (snd (handleFileChange (file :: rest) p))) = true /\
    previewUrl (showPreview file (snd (handleFileChange (file :: rest) p)))
    = Some file /\
    selectedFile
      (form (showPreview file (snd (handleFileChange (file :: rest) p))))
    = Some file /\
    submitDisabled
      (form (showPreview file (snd (handleFileChange (file :: rest) p))))
    = isLoading (form p) /\
    handleFileChange [] p = (false, p) /\
    (forall blob : Blob,
       submitDisabled (onBlob (Some blob) (form p)) = true).
Proof.
  intros p file rest Hm.
  unfold handleFileChange, showPreview, setSelectedFile, setIsImageLoading.
  cbn [snd form]. rewrite Hm. cbn [mounted set_isImageLoading]. rewrite Hm.
  cbn [form mounted set_selectedFile set_isImageLoading]. rewrite Hm.
  split; [reflexivity|].
  split; [unfold submitDisabled; simpl;
          rewrite andb_false_r, orb_true_r; reflexivity|].
  split; [reflexivity|]. split; [reflexivity|].
  split; [unfold submitDisabled; simpl;
          rewrite andb_false_r, !orb_false_r; reflexivity|].
  split; [reflexivity|].
  intros blob. unfold onBlob, setIsImageLoading, setSelectedFile. rewrite Hm.
  destruct (stopCamera_effect (set_isImageLoading true (form p)) Hm)
    as (_ & _ & _ & H4 & _).
  rewrite H4. unfold submitDisabled. cbn [isLoading isImageLoading
    set_selectedFile].
  assert (Hl : isImageLoading (stopCamera (set_isImageLoading true (form p)))
               = true).
  { unfold stopCamera. rewrite FormFacts.view_closed.
    - simpl. destruct (streamRef (form p)); [|reflexivity].
      simpl. rewrite stopTracks_live. reflexivity.
    - simpl. destruct (streamRef (form p)); [|exact Hm].
      simpl. rewrite stopTracks_live. exact Hm. }
  rewrite Hl. cbn [selectedFile isSome negb].
  rewrite andb_false_r, orb_true_r. reflexivity.
Qed.

Lemma image_processing_witness :
  mounted (form {| form := fresh; previewUrl := None |}) = true /\
  submitDisabled
    (form (snd (handleFileChange [snapshot]
                  {| form := fresh; previewUrl := None |}))) = true /\
  submitDisabled
    (form (showPreview snapshot
             (snd (handleFileChange [snapshot]
                     {| form := fresh; previewUrl := None |}))))
  = isLoading (form {| form := fresh; previewUrl := None |}).
Proof.
  split; [reflexivity|].
  pose proof (image_processing_gates_submit
                {| form := fresh; previewUrl := None |} snapshot [] eq_refl)
    as (_ & H2 & _ & _ & H5 & _).
  split; [exact H2 | exact H5].
Defined.

(** X14: removing the photo undoes the choice: no file is selected,
    the preview is gone, nothing is loading and the typed text is kept; with
    a blank text the form then refuses to submit again. *)
Theorem clearing_undoes_the_choice :
  forall (p : Picker) (file : File) (rest : list File),
    mounted (form p) = true ->
    selectedFile
      (form (clearFile (showPreview file
                          (snd (handleFileChange (file :: rest) p))))) = None /\
    previewUrl
      (clearFile (showPreview file (snd (handleFileChange (file :: rest) p))))
    = None /\
    isImageLoading
      (form (clearFile (showPreview file
                          (snd (handleFileChange (file :: rest) p))))) = false /\
    textInput
      (form (clearFile (showPreview file
                          (snd (handleFileChange (file :: rest) p)))))
    = textInput (form p) /\
    (falsy (trim (textInput (form p))) = true ->
     submitted
       (handleSubmit
          (form (clearFile (showPreview file
                              (snd (handleFileChange (file :: rest) p))))))
     = submitted (form p)).
Proof.
  intros p file rest Hm.
  unfold handleFileChange, showPreview, clearFile, setSelectedFile,
    setIsImageLoading.
  cbn [snd form]. rewrite Hm. cbn [mounted set_isImageLoading]. rewrite Hm.
  cbn [form mounted set_selectedFile set_isImageLoading]. rewrite Hm.
  cbn [form mounted set_selectedFile set_isImageLoading play set_sounds].
  rewrite Hm.
  do 4 (split; [reflexivity|]).
  intros Hblank. unfold handleSubmit. simpl. rewrite Hblank. reflexivity.
Qed.

Lemma clearing_witness :
  mounted (form {| form := fresh; previewUrl := None |}) = true /\
  previewUrl
    (clearFile (showPreview snapshot
                  (snd (handleFileChange [snapshot]
                          {| form := fresh; previewUrl := None |}))))
  = None.
Proof.
  split; [reflexivity|].
  exact (proj1 (proj2
    (clearing_undoes_the_choice {| form := fresh; previewUrl := None |}
       snapshot [] eq_refl))).
Defined.

(** X15: the photo taken is the photo sent.  After a capture that
    produced a blob and its processing timeout, the preview shows the
    captured file, and submitting (whatever the text, even none) calls
    [onSubmit] once more with that file and the mode, language and text of
    the form. *)
Theorem captured_photo_is_submitted :
  forall (f : Form) (s : MediaStream),
    mounted f = true -> isCameraOpen f = true -> streamRef f = Some s ->
    context2d f = true -> encoder f = true ->
    (0 < videoWidth (video f))%Z -> (0 < videoHeight (video f))%Z ->
    exists blob,
      fst (capturePhoto f) = Some (Some blob) /\
      previewUrl
        (showPreview
           {| file_name := "camera-capture.jpg"; file_type := "image/jpeg";
              file_blob := blob |}
           {| form := onBlob (Some blob) (snd (capturePhoto f));
              previewUrl := None |})
      = Some {| file_name := "camera-capture.jpg";
                file_type := "image/jpeg"; file_blob := blob |} /\
      submitted
        (handleSubmit
           (form (showPreview
                    {| file_name := "camera-capture.jpg";
                       file_type := "image/jpeg"; file_blob := blob |}
                    {| form := onBlob (Some blob) (snd (capturePhoto f));
                       previewUrl := None |})))
      = {| sub_mode := selectedMode f; sub_language := selectedLanguage f;
           sub_text := textInput f;
           sub_file := Some {| file_name := "camera-capture.jpg";
                               file_type := "image/jpeg";
                               file_blob := blob |} |}
        :: submitted f.
Proof.
  intros f s Hm Ho Hs Hc He HW HH.
  unfold capturePhoto, videoRef, canvasRef. simpl.
  rewrite Hm, Ho, Hc. simpl. unfold toBlob. simpl. rewrite He.
  destruct (Z.eqb_spec (videoWidth (video f)) 0) as [E|_]; [lia|].
  destruct (Z.eqb_spec (videoHeight (video f)) 0) as [E|_]; [lia|].
  simpl. eexists. split; [reflexivity|].
  unfold onBlob, setIsImageLoading, setSelectedFile, showPreview.
  cbn [mounted set_canvas play set_sounds]. rewrite Hm.
  unfold stopCamera, play.
  cbn [streamRef set_isImageLoading set_canvas set_sounds].
  rewrite Hs, stopTracks_live.
  unfold setFocusPoint, setIsCameraOpen.
  cbn [mounted set_focusPoint set_isCameraOpen set_streamRef set_live
       set_isImageLoading set_canvas set_sounds form set_selectedFile].
  rewrite Hm.
  cbn [mounted set_focusPoint set_isCameraOpen set_streamRef set_live
       set_isImageLoading set_canvas set_sounds form set_selectedFile].
  repeat (progress
    (cbn [mounted set_focusPoint set_isCameraOpen set_streamRef set_live
          set_isImageLoading set_canvas set_sounds form set_selectedFile];
     rewrite ?Hm)).
  split; [reflexivity|].
  unfold handleSubmit, setIsImageLoading.
  repeat (progress
    (cbn [mounted set_focusPoint set_isCameraOpen set_streamRef set_live
          set_isImageLoading set_canvas set_sounds form set_selectedFile];
     rewrite ?Hm)).
  cbn [selectedFile set_isImageLoading isSome negb].
  rewrite andb_false_r. reflexivity.
Qed.

Lemma captured_photo_witness :
  mounted (showing (still 2 1) opened) = true /\
  isCameraOpen (showing (still 2 1) opened) = true /\
  streamRef (showing (still 2 1) opened) = Some frontCamera /\
  context2d (showing (still 2 1) opened) = true /\
  encoder (showing (still 2 1) opened) = true /\
  (0 < videoWidth (video (showing (still 2 1) opened)))%Z /\
  (0 < videoHeight (video (showing (still 2 1) opened)))%Z /\
  exists blob,
    fst (capturePhoto (showing (still 2 1) opened)) = Some (Some blob).
Proof.
  do 7 (split; [reflexivity|]).
  destruct (captured_photo_is_submitted (showing (still 2 1) opened)
              frontCamera eq_refl eq_refl eq_refl eq_refl eq_refl eq_refl
              eq_refl) as (blob & H1 & _).
  exists blob. exact H1.
Defined.

End ControlsFacts.

(** ** Facts about the application shell *)

Module AppFacts.

Import Scheduler Backend App.

Local Open Scope string_scope.

Section WithPlatform.

Variable Json : Type.
Variable JSON_parse : string -> option Json.
Variable userPrompt : RoastMode -> RoastLanguage -> JsString -> bool -> string.
Variable generateContent : Request -> Reply.
Variable isTruthy : Json -> bool.

Local Abbreviation generateRoast :=
  (Backend.generateRoast Json JSON_parse userPrompt generateContent).
Local Abbreviation handleRoastSubmit :=
  (App.handleRoastSubmit Json JSON_parse userPrompt generateContent).

(** How [generateRoast] can end: with the parsed answer, with its one
    error message, or with the reader's error when the file is unreadable. *)
Lemma generateRoast_cases (mode : RoastMode) (language : RoastLanguage)
  (text : JsString) (file : option File) :
  (exists data, generateRoast mode language text file = Returned data /\
     (forall f, file = Some f -> file_readable f = true))
  \/ (generateRoast mode language text file
      = Thrown "Failed to generate roast. Please try again." /\
      (forall f, file = Some f -> file_readable f = true))
  \/ (generateRoast mode language text file = ReadError /\
      exists f, file = Some f /\ file_readable f = false).
Proof.
  unfold Backend.generateRoast, buildParts, fileToBase64.
  destruct file as [f|].
  - destruct (file_readable f) eqn:Hr.
    + assert (Hf : forall f', Some f = Some f' -> file_readable f' = true)
        by (intros f' [= <-]; exact Hr).
      destruct (generateContent _) as [|[t|]]; cbn [negb truthy]; auto.
      destruct t as [|c t]; cbn [negb truthy]; auto.
      destruct (JSON_parse _); eauto.
    + right. right. eauto.
  - assert (Hf : forall f', @None File = Some f' -> file_readable f' = true)
      by discriminate.
    destruct (generateContent _) as [|[t|]]; cbn [negb truthy]; auto.
    destruct t as [|c t]; cbn [negb truthy]; auto.
    destruct (JSON_parse _); eauto.
Qed.

(** X16: however the request ends, the spinner is gone and the
    page never shows an answer and an error together.  The success sound is
    played exactly when no error is stored; the error text is one of two
    fixed messages, the generic one exactly when the attached file could not
    be read; and the form comes back on its own only when the answer parsed
    to a falsy value.  After a failure, the button of the error panel
    brings the form back. *)
Theorem submit_ends_in_answer_or_error :
  forall (mode : RoastMode) (language : RoastLanguage) (text : JsString)
         (file : option File) (a : App Json),
    let a' := handleRoastSubmit mode language text file a in
    isLoading a' = false /\
    currentLanguage a' = language /\
    showsResult Json isTruthy a' && showsError Json a' = false /\
    (error a' = None /\ sounds a' = Synth.success :: sounds a /\
       (exists data, result a' = Some data /\
          generateRoast mode language text file = Returned data)
     \/ result a' = None /\ sounds a' = sounds a /\ showsError Json a' = true /\
        showsForm Json isTruthy (tryAgain a') = true /\
        (error a' = Some "Failed to generate roast. Please try again."
         \/ error a' = Some "Something went wrong.")) /\
    (error a' = Some "Something went wrong." <->
     exists f, file = Some f /\ file_readable f = false) /\
    (showsForm Json isTruthy a' = true <->
     exists data, generateRoast mode language text file = Returned data /\
                  isTruthy data = false).
Proof.
  intros mode language text file a a'. subst a'.
  unfold App.handleRoastSubmit, settled, submitting.
  destruct (generateRoast_cases mode language text file)
    as [(data & -> & Hf) | [(-> & Hf) | (-> & f & -> & Hr)]];
    unfold showsForm, showsResult, showsError; cbn.
  - split; [reflexivity|]. split; [reflexivity|].
    split; [apply andb_false_r|].
    split; [left; eauto|]. split.
    + split; [discriminate|]. intros (f & -> & Hr).
      rewrite (Hf f eq_refl) in Hr. discriminate.
    + rewrite andb_true_r. split.
      * intros H. exists data. split; [reflexivity|].
        apply negb_true_iff. exact H.
      * intros (d & [= <-] & H). rewrite H. reflexivity.
  - split; [reflexivity|]. split; [reflexivity|]. split; [reflexivity|].
    split; [right; auto 6|]. split.
    + split; [discriminate|]. intros (f & -> & Hr).
      rewrite (Hf f eq_refl) in Hr. discriminate.
    + split; [discriminate|]. intros (d & [=] & _).
  - split; [reflexivity|]. split; [reflexivity|]. split; [reflexivity|].
    split; [right; auto 6|]. split.
    + split; eauto.
    + split; [discriminate|]. intros (d & [=] & _).
Qed.

(** *** The music button *)

Variable random : nat -> Q.

Local Abbreviation handleToggleMusic := (App.handleToggleMusic Json random).
Local Abbreviation act := (App.act Json random).
Local Abbreviation run := (App.run Json random).

Lemma resumeCtx_steady (w : World) :
  steady w ->
  steady (snd (resumeCtx w)) /\
  musicEnabled (snd (resumeCtx w)) = musicEnabled w /\
  available (snd (resumeCtx w)) = available w.
Proof.
  intros Hst.
  destruct (SchedulerFacts.resumeCtx_spec w)
    as (_ & (Hm & Ht & Hl & _ & _ & _ & Ha & _) & _).
  unfold steady, tidy, silent in *. rewrite Ha, Hm, Ht, Hl. auto.
Qed.

Lemma act_in_tune (fuel : nat) (x : Action) (a a' : App Json) :
  in_tune a -> act fuel x a = Some a' ->
  in_tune a' /\ available (service a') = available (service a).
Proof.
  intros (Hst & Hen) Hact. destruct x as [|e|h|dt]; cbn [App.act] in Hact.
  - unfold App.handleToggleMusic in Hact. cbn in Hact.
    destruct (resumeCtx_steady (service a) Hst) as (Hst1 & Hm1 & Ha1).
    destruct (toggleBackgroundMusic random fuel (negb (isMusicPlaying a))
                (snd (resumeCtx (service a)))) as [w|] eqn:Ht;
      [|discriminate].
    injection Hact as <-. cbn.
    destruct (SchedulerFacts.step_steady random fuel
                (Toggle (negb (isMusicPlaying a)))
                (snd (resumeCtx (service a))) w Hst1)
      as (Hst2 & Ha2 & Htog & _).
    + rewrite Hm1, Hen. destruct (isMusicPlaying a); reflexivity.
    + exact Ht.
    + split; [split|]; [exact Hst2 | apply Htog; reflexivity | congruence].
  - injection Hact as <-. unfold in_tune, play. cbn [service isMusicPlaying].
    destruct (resumeCtx_steady (service a) Hst) as (Hst1 & Hm1 & Ha1).
    split; [split|]; [exact Hst1 | rewrite <- Hen; exact Hm1 | exact Ha1].
  - destruct (step random fuel (Fire h) (service a)) as [w|] eqn:Hs;
      [|discriminate].
    injection Hact as <-. unfold in_tune, set_service.
    cbn [service isMusicPlaying].
    destruct (SchedulerFacts.step_steady random fuel (Fire h) (service a) w
                Hst eq_refl Hs) as (Hst2 & Ha2 & _ & Hsame).
    split; [split|]; [exact Hst2 | | exact Ha2].
    rewrite Hsame; [exact Hen | intros; discriminate].
  - destruct (step random fuel (Elapse dt) (service a)) as [w|] eqn:Hs;
      [|discriminate].
    injection Hact as <-. unfold in_tune, set_service.
    cbn [service isMusicPlaying].
    destruct (SchedulerFacts.step_steady random fuel (Elapse dt) (service a) w
                Hst eq_refl Hs) as (Hst2 & Ha2 & _ & Hsame).
    split; [split|]; [exact Hst2 | | exact Ha2].
    rewrite Hsame; [exact Hen | intros; discriminate].
Qed.

Lemma run_in_tune (fuel : nat) (xs : list Action) :
  forall a a', in_tune a -> run fuel xs a = Some a' ->
    in_tune a' /\ available (service a') = available (service a).
Proof.
  induction xs as [|x xs IH]; intros a a' Hin Hrun; cbn [App.run] in Hrun.
  - injection Hrun as <-. auto.
  - destruct (act fuel x a) as [a1|] eqn:Hact; [|discriminate].
    destruct (act_in_tune fuel x a a1 Hin Hact) as (Hin1 & Ha1).
    destruct (IH a1 a' Hin1 Hrun) as (Hin' & Ha').
    split; [exact Hin' | congruence].
Qed.

Section Paced.

Hypothesis random_range : forall n, 0 <= random n < 1.

Lemma act_settles (x : Action) (a : App Json) :
  settles (fun m => act m x a).
Proof.
  destruct x as [|e|h|dt]; cbn [App.act].
  - unfold App.handleToggleMusic.
    destruct (SchedulerFacts.step_settles random random_range
                (Toggle (negb (isMusicPlaying (play Synth.click a))))
                (service (setIsMusicPlaying
                            (negb (isMusicPlaying (play Synth.click a)))
                            (play Synth.click a))))
      as (n & w & Hn).
    exists n. eexists. intros m Hm. cbn [Scheduler.step] in Hn.
    cbv zeta. rewrite (Hn m Hm). reflexivity.
  - exists 0%nat. eexists. reflexivity.
  - destruct (SchedulerFacts.step_settles random random_range (Fire h)
                (service a)) as (n & w & Hn).
    exists n. eexists. intros m Hm. rewrite (Hn m Hm). reflexivity.
  - destruct (SchedulerFacts.step_settles random random_range (Elapse dt)
                (service a)) as (n & w & Hn).
    exists n. eexists. intros m Hm. rewrite (Hn m Hm). reflexivity.
Qed.

Lemma run_settles (xs : list Action) :
  forall a, settles (fun m => run m xs a).
Proof.
  induction xs as [|x xs IH]; intros a; cbn [App.run].
  - exists 0%nat, a. reflexivity.
  - destruct (act_settles x a) as (n1 & a1 & H1).
    destruct (IH a1) as (n2 & a2 & H2).
    exists (Nat.max n1 n2), a2. intros m Hm.
    rewrite (H1 m) by lia. apply H2. lia.
Qed.

End Paced.

End WithPlatform.



End AppFacts.

(** ** Facts about the result card *)

Module RoastResultFacts.

Import RoastResult.

Local Open Scope string_scope.

Lemma includes_later (c : ascii) (s sub : string) :
  includes s sub = true -> includes (String c s) sub = true.
Proof.
  intros H. cbn [includes]. rewrite H. apply orb_true_r.
Qed.

Lemma prefix_app (sub s post : string) :
  String.prefix sub s = true -> String.prefix sub (s ++ post) = true.
Proof.
  revert s. induction sub as [|c sub IH]; intros s H.
  - destruct s; [destruct post|]; reflexivity.
  - destruct s as [|d s]; [discriminate|].
    change (String d s ++ post) with (String d (s ++ post)).
    cbn [String.prefix] in H |- *.
    destruct (Ascii.ascii_dec c d); [|discriminate]. apply IH. exact H.
Qed.

Lemma includes_app_r (s sub post : string) :
  includes s sub = true -> includes (s ++ post) sub = true.
Proof.
  induction s as [|c s IH]; intros H.
  - cbn [includes] in H. rewrite orb_false_r in H.
    destruct sub; [|discriminate]. destruct post; reflexivity.
  - cbn [includes] in H. apply orb_prop in H. destruct H as [H | H].
    + change (String c s ++ post) with (String c (s ++ post)).
      cbn [includes].
      change (String c (s ++ post)) with (String c s ++ post).
      rewrite (prefix_app _ _ _ H). reflexivity.
    + change (String c s ++ post) with (String c (s ++ post)).
      apply includes_later. apply IH. exact H.
Qed.

Lemma includes_app_l (pre s sub : string) :
  includes s sub = true -> includes (pre ++ s) sub = true.
Proof.
  intros H. induction pre as [|c pre IH]; [exact H|].
  change (String c pre ++ s) with (String c (pre ++ s)).
  apply includes_later. exact IH.
Qed.

(** X18: the card recovers the mode from its enum value: when the
    answer echoes the value of the requested mode as its type, the card is
    styled for that mode; and a type that mentions a compliment anywhere,
    whatever surrounds it, is styled as a compliment. *)
Theorem modeKey_recovers_the_mode :
  (forall m : RoastMode, modeKey (modeValue m) = m) /\
  (forall pre post : string,
     modeKey (pre ++ modeValue COMPLIMENT ++ post) = COMPLIMENT).
Proof.
  split.
  - intros []; reflexivity.
  - intros pre post. unfold modeKey.
    rewrite includes_app_l; [reflexivity|].
    apply includes_app_r. reflexivity.
Qed.

Section WithLocale.

Variable toLowerCase : string -> string.

Local Abbreviation selectVoice := (RoastResult.selectVoice toLowerCase).
Local Abbreviation handleSpeak := (RoastResult.handleSpeak toLowerCase).

(** A two-step preference: [p1] is the finer of the two tests. *)
Lemma prefer (p1 p2 : Voice -> bool) (rest : option Voice)
  (voices : list Voice) :
  (forall v, p1 v = true -> p2 v = true) ->
  forall v0, In v0 voices -> p2 v0 = true ->
    exists v,
      orElse (List.find p1 voices) (orElse (List.find p2 voices) rest)
      = Some v /\
      In v voices /\ p2 v = true /\
      ((exists g, In g voices /\ p1 g = true) -> p1 v = true).
Proof.
  intros Hfiner v0 Hin Hp.
  destruct (List.find p1 voices) as [v|] eqn:H1.
  - apply find_some in H1. destruct H1 as (Hv & H1).
    exists v. cbn [orElse]. auto.
  - destruct (List.find p2 voices) as [v|] eqn:H2.
    + apply find_some in H2. destruct H2 as (Hv & H2).
      exists v. cbn [orElse]. do 3 (split; [auto|]).
      intros (g & Hg & Hg1).
      rewrite (find_none _ _ H1 g Hg) in Hg1. discriminate.
    + rewrite (find_none _ _ H2 v0 Hin) in Hp. discriminate.
Qed.

Lemma orElse_In (voices : list Voice) (a b : option Voice) :
  (forall v, a = Some v -> In v voices) ->
  (forall v, b = Some v -> In v voices) ->
  forall v, orElse a b = Some v -> In v voices.
Proof. intros Ha Hb v. destruct a; cbn [orElse]; auto. Qed.

Lemma find_In (p : Voice -> bool) (voices : list Voice) :
  forall v, List.find p voices = Some v -> In v voices.
Proof. intros v H. apply find_some in H. tauto. Qed.

Lemma selectVoice_installed (language : RoastLanguage) (voices : list Voice) :
  forall v, snd (selectVoice language voices) = Some v -> In v voices.
Proof.
  destruct language; cbn [RoastResult.selectVoice snd];
    repeat (apply orElse_In; [apply find_In|]); discriminate.
Qed.

(** X19: reading an answer aloud queues one utterance with the
    answer's text and the tag of its language.  Its voice, if it has one,
    is an installed voice.  For Hindi and Roman Urdu, as soon as a voice
    of exactly that tag is installed the utterance gets such a voice, and a
    Google one if there is any. *)
Theorem speak_picks_an_installed_voice_of_the_language :
  forall (message : string) (language : RoastLanguage) (c : Card),
    isSpeaking c = false ->
    exists u,
      spoken (handleSpeak message language c) = u :: spoken c /\
      cancels (handleSpeak message language c) = cancels c /\
      text u = message /\
      utterance_lang u
      = match language with
        | English => "en-US" | Hindi => "hi-IN" | RomanUrdu => "en-IN"
        end /\
      (forall v, voice u = Some v -> In v (availableVoices c)) /\
      (language <> English ->
       forall v0, In v0 (availableVoices c) ->
         lang v0 = utterance_lang u ->
         exists v,
           voice u = Some v /\ lang v = utterance_lang u /\
           ((exists g, In g (availableVoices c) /\
                       lang g = utterance_lang u /\
                       includes (name g) "Google" = true) ->
            includes (name v) "Google" = true)).
Proof.
  intros message language c Hs. unfold RoastResult.handleSpeak. rewrite Hs.
  pose proof (selectVoice_installed language (availableVoices c)) as Hin.
  destruct (selectVoice language (availableVoices c)) as [tag sel] eqn:Hsel.
  cbn [snd] in Hin.
  eexists. cbn [spoken cancels text utterance_lang voice].
  split; [reflexivity|]. split; [reflexivity|]. split; [reflexivity|].
  assert (Htag : tag = match language with
                       | English => "en-US" | Hindi => "hi-IN"
                       | RomanUrdu => "en-IN"
                       end).
  { destruct language; injection Hsel as <- _; reflexivity. }
  split; [exact Htag|]. split; [exact Hin|].
  intros Hne v0 Hv0 Hl. rewrite Htag in Hl |- *.
  destruct language; [congruence| |];
    cbn [RoastResult.selectVoice] in Hsel; injection Hsel as _ <-.
  - destruct (prefer
                (fun v => String.eqb (lang v) "hi-IN"
                          && includes (name v) "Google")
                (fun v => String.eqb (lang v) "hi-IN")
                (orElse (List.find (fun v => String.eqb (lang v) "hi")
                           (availableVoices c))
                   (orElse (List.find
                              (fun v => includes (toLowerCase (name v)) "hindi")
                              (availableVoices c)) None))
                (availableVoices c))
      with (v0 := v0) as (v & Hv & _ & Hp & Hg).
    + intros v H. apply andb_prop in H. tauto.
    + exact Hv0.
    + apply String.eqb_eq. exact Hl.
    + exists v. split; [exact Hv|]. apply String.eqb_eq in Hp.
      split; [exact Hp|]. intros (g & Hg1 & Hg2 & Hg3).
      assert (H : String.eqb (lang v) "hi-IN" && includes (name v) "Google"
                  = true).
      { apply Hg. exists g. split; [exact Hg1|].
        apply andb_true_intro. split; [apply String.eqb_eq; exact Hg2|].
        exact Hg3. }
      apply andb_prop in H. tauto.
  - destruct (prefer
                (fun v => String.eqb (lang v) "en-IN"
                          && includes (name v) "Google")
                (fun v => String.eqb (lang v) "en-IN")
                (orElse (List.find (fun v => includes (name v) "India"
                                             && includes (lang v) "en")
                           (availableVoices c))
                   (orElse (List.find (fun v => String.eqb (lang v) "en-GB")
                              (availableVoices c)) None))
                (availableVoices c))
      with (v0 := v0) as (v & Hv & _ & Hp & Hg).
    + intros v H. apply andb_prop in H. tauto.
    + exact Hv0.
    + apply String.eqb_eq. exact Hl.
    + exists v. split; [exact Hv|]. apply String.eqb_eq in Hp.
      split; [exact Hp|]. intros (g & Hg1 & Hg2 & Hg3).
      assert (H : String.eqb (lang v) "en-IN" && includes (name v) "Google"
                  = true).
      { apply Hg. exists g. split; [exact Hg1|].
        apply andb_true_intro. split; [apply String.eqb_eq; exact Hg2|].
        exact Hg3. }
      apply andb_prop in H. tauto.
Qed.

End WithLocale.

Lemma speak_witness :
  isSpeaking (card [samantha; lekha; googleHindi]) = false /\
  exists u,
    spoken (handleSpeak (fun s => s) "Nice hat." Hindi
              (card [samantha; lekha; googleHindi]))
    = u :: spoken (card [samantha; lekha; googleHindi]) /\
    text u = "Nice hat.".
Proof.
  split; [reflexivity|].
  destruct (speak_picks_an_installed_voice_of_the_language (fun s => s)
              "Nice hat." Hindi (card [samantha; lekha; googleHindi]) eq_refl)
    as (u & H1 & _ & H3 & _).
  exists u. split; [exact H1 | exact H3].
Defined.

Example hindi_answer_gets_the_google_voice :
  map voice
    (spoken (handleSpeak (fun s => s) "Nice hat." Hindi
               (card [samantha; lekha; googleHindi])))
  = [Some googleHindi].
Proof. reflexivity. Qed.

End RoastResultFacts.
